(** * packages/load.go: pattern listing and the lazy importer

    A shallow embedding of [src/packages/load.go] (package [packages]) and
    the properties of [List], [NewImporter] and [Importer.Import].

    Go strings are byte strings and are modelled by [string]; Go slices of
    strings by [list string] (a nil slice and an empty slice are both [[]]);
    Go maps by [gmap]/[gset], behind a location in a store where the map is
    shared and mutated.  The operating system (directory tree, working
    directory) and the Go heap are explicit in a [World] that every
    effectful function threads through a small monad. *)

From Stdlib Require Import String Ascii List Bool Arith Lia.
From stdpp Require Import gmap strings list.
Import ListNotations.

Local Open Scope string_scope.
Local Open Scope nat_scope.
Local Open Scope list_scope.
Local Open Scope stdpp_scope.

Set Warnings "-register-all".

(* ------------------------------------------------------------------ *)
(** ** Package [strings] *)

Module strings.

(** [s[lo:hi]] for [lo <= hi <= len(s)]. *)
Definition slice (s : string) (lo hi : nat) : string :=
  String.substring lo (hi - lo) s.

(** [strings.HasPrefix(s, prefix)]. *)
Fixpoint HasPrefix (s prefix : string) : bool :=
  match prefix, s with
  | EmptyString, _ => true
  | String a prefix', String b s' => Ascii.eqb a b && HasPrefix s' prefix'
  | String _ _, EmptyString => false
  end.

(** [strings.HasSuffix(s, suffix)]:
    [len(s) >= len(suffix) && s[len(s)-len(suffix):] == suffix]. *)
Definition HasSuffix (s suffix : string) : bool :=
  (String.length suffix <=? String.length s)
  && String.eqb
       (slice s (String.length s - String.length suffix) (String.length s))
       suffix.

(** [strings.Join(elems, sep)]. *)
Fixpoint Join (elems : list string) (sep : string) : string :=
  match elems with
  | [] => ""
  | [e] => e
  | e :: rest => e +:+ sep +:+ Join rest sep
  end.

(** [strings.Split(s, "/")]: the elements between the separators; never
    empty, [Split("", "/") = [""]]. *)
Fixpoint SplitSlash (s : string) : list string :=
  match s with
  | EmptyString => [""]
  | String c r =>
      if Ascii.eqb c "/" then "" :: SplitSlash r
      else match SplitSlash r with
           | e :: es => String c e :: es
           | [] => [String c ""]
           end
  end.

End strings.

(* ------------------------------------------------------------------ *)
(** ** Errors *)

Inductive Errno := ENOENT | ENOTDIR | EACCES | EISDIR.

(** The dynamic types an [error] value has in this program:
    a bare [syscall.Errno], an [*fs.PathError] of the [os] package, and
    the string errors of [errors.New] and [fmt.Errorf]. *)
Inductive error :=
| SyscallErrno (e : Errno)
| PathError (op name : string) (e : Errno)
| ErrorString (msg : string).

Module syscall.
Definition ENOENT : error := SyscallErrno ENOENT.
End syscall.

(* ------------------------------------------------------------------ *)
(** ** The operating system: a directory tree and a working directory *)

(** A file with its bytes, or a directory with its read permission and
    its entries. *)
Inductive Node :=
| File (data : string)
| Dir (readable : bool) (entries : list (string * Node)).

(** [fs.DirEntry], as far as the program looks at it. *)
Record DirEntry := mkDirEntry { Name : string; IsDir : bool }.

Module fs.

Fixpoint assoc (name : string) (es : list (string * Node)) : option Node :=
  match es with
  | [] => None
  | (n, x) :: rest => if String.eqb n name then Some x else assoc name rest
  end.

(** The node at an absolute location given by its element names. *)
Fixpoint nodeAt (n : Node) (loc : list string) : option Node :=
  match loc with
  | [] => Some n
  | e :: rest =>
      match n with
      | Dir _ es =>
          match assoc e es with
          | Some x => nodeAt x rest
          | None => None
          end
      | File _ => None
      end
  end.

(** Path resolution from location [cur], element by element: every
    element but the last must lead to a directory; [..] goes to the
    parent (the root is its own parent).  There are no symbolic links. *)
Fixpoint walk (root : Node) (cur : list string) (elems : list string)
  : Errno + list string :=
  match elems with
  | [] => inr cur
  | e :: rest =>
      match nodeAt root cur with
      | Some (Dir _ es) =>
          if String.eqb e "" || String.eqb e "." then walk root cur rest
          else if String.eqb e ".." then walk root (removelast cur) rest
          else match assoc e es with
               | Some _ => walk root (cur ++ [e]) rest
               | None => inl ENOENT
               end
      | Some (File _) => inl ENOTDIR
      | None => inl ENOENT
      end
  end.

(** The node a path names: an absolute path is resolved from the root, a
    relative one from the working directory, the empty path names
    nothing. *)
Definition resolve (root : Node) (cwd : option (list string)) (p : string)
  : Errno + Node :=
  if String.eqb p "" then inl ENOENT
  else
    match (if strings.HasPrefix p "/" then Some [] else cwd) with
    | None => inl ENOENT
    | Some start =>
        match walk root start (strings.SplitSlash p) with
        | inl e => inl e
        | inr loc =>
            match nodeAt root loc with
            | Some n => inr n
            | None => inl ENOENT
            end
        end
    end.

(** Insertion into a list of entries sorted by name. *)
Fixpoint insertEntry (d : DirEntry) (l : list DirEntry) : list DirEntry :=
  match l with
  | [] => [d]
  | x :: rest =>
      if String.leb (Name d) (Name x) then d :: l
      else x :: insertEntry d rest
  end.

Definition sortEntries (l : list DirEntry) : list DirEntry :=
  fold_right insertEntry [] l.

Definition entryOf (e : string * Node) : DirEntry :=
  mkDirEntry (fst e) (match snd e with Dir _ _ => true | File _ => false end).

(** What [os.ReadDir] returns for a path: the entries of the directory
    sorted by file name. *)
Definition readDir (root : Node) (cwd : option (list string)) (p : string)
  : list DirEntry * option error :=
  match resolve root cwd p with
  | inl e => ([], Some (PathError "open" p e))
  | inr (File _) => ([], Some (PathError "readdirent" p ENOTDIR))
  | inr (Dir false _) => ([], Some (PathError "open" p EACCES))
  | inr (Dir true es) => (sortEntries (map entryOf es), None)
  end.

End fs.

(* ------------------------------------------------------------------ *)
(** ** The Go heap *)

Abbreviation loc := positive.

(** A Go pointer: [None] is [nil]. *)
Abbreviation ptr := (option loc).

(** [types.Package], as far as the program looks at it. *)
Record Package := mkPackage { pkg_path : string; pkg_complete : bool }.

(** The [types.Package] objects and the [map[string]*types.Package]
    objects allocated so far, and the next free location. *)
Record Heap := mkHeap {
  h_pkgs : gmap loc Package;
  h_maps : gmap loc (gmap string ptr);
  h_next : loc
}.

(** The system calls a function makes, in order. *)
Inductive Event :=
| EvGetwd
| EvReadDir (name : string)
| EvOpen (name : string)
| EvClose (name : string).

Record World := mkWorld {
  w_root : Node;
  w_cwd : option (list string);
  w_heap : Heap;
  w_log : list Event
}.

Definition logEvent (ev : Event) (w : World) : World :=
  mkWorld (w_root w) (w_cwd w) (w_heap w) (w_log w ++ [ev]).

Definition setHeap (h : Heap) (w : World) : World :=
  mkWorld (w_root w) (w_cwd w) h (w_log w).

Definition setRoot (r : Node) (w : World) : World :=
  mkWorld r (w_cwd w) (w_heap w) (w_log w).

(* ------------------------------------------------------------------ *)
(** ** The monad of the embedding

    A computation runs in a world and either returns a value and the
    world it leaves, or panics, or exhausts the recursion budget of
    [doListPkgs].  A Go function with results [(v, err)] returns the
    pair [(v, err)], with [None] for a nil [error]. *)

Inductive Res (A : Type) :=
| Done (w : World) (a : A)
| Panic (msg : string)
| OutOfFuel.
Arguments Done {A} w a.
Arguments Panic {A} msg.
Arguments OutOfFuel {A}.

Definition M (A : Type) : Type := World -> Res A.

Definition ret {A} (a : A) : M A := fun w => Done w a.

Definition bind {A B} (m : M A) (k : A -> M B) : M B :=
  fun w =>
    match m w with
    | Done w' a => k a w'
    | Panic msg => Panic msg
    | OutOfFuel => OutOfFuel
    end.

Definition panic {A} (msg : string) : M A := fun _ => Panic msg.

Notation "'let*' x ':=' m 'in' k" := (bind m (fun x => k))
  (at level 10, x pattern, m at level 100, k at level 200).

(** [for _, x := range l { s = body(x, s) }]. *)
Fixpoint forRange {A S} (body : A -> S -> M S) (l : list A) (s : S) : M S :=
  match l with
  | [] => ret s
  | x :: rest => let* s' := body x s in forRange body rest s'
  end.

(** Reading a field through a pointer to a struct. *)
Definition deref {T} (p : option T) : M T :=
  match p with
  | Some v => ret v
  | None => panic "invalid memory address or nil pointer dereference"
  end.

Module os.

Definition Getwd : M (string * option error) :=
  fun w =>
    let w := logEvent EvGetwd w in
    match w_cwd w with
    | Some loc => Done w ("/" +:+ strings.Join loc "/", None)
    | None => Done w ("", Some (PathError "getwd" "." ENOENT))
    end.

Definition ReadDir (name : string) : M (list DirEntry * option error) :=
  fun w =>
    let w := logEvent (EvReadDir name) w in
    Done w (fs.readDir (w_root w) (w_cwd w) name).

(** An open [*os.File]: the name it was opened under and its node. *)
Record File := mkFile { f_name : string; f_node : Node }.

Definition Open (name : string) : M (option File * option error) :=
  fun w =>
    let w := logEvent (EvOpen name) w in
    match fs.resolve (w_root w) (w_cwd w) name with
    | inl e => Done w (None, Some (PathError "open" name e))
    | inr n => Done w (Some (mkFile name n), None)
    end.

Definition Close (f : File) : M unit :=
  fun w => Done (logEvent (EvClose (f_name f)) w) tt.

End os.

(* ------------------------------------------------------------------ *)
(** ** Packages [path] and [path/filepath] on a Unix system

    The separator is [/], there are no volume names and [ToSlash] is the
    identity.  [Clean] is given on path elements: it returns the same
    string as the byte loop of the Go library. *)

Module filepath.

Definition IsAbs (p : string) : bool := strings.HasPrefix p "/".

(** One step of [Clean]'s loop; [out] is the output so far, last element
    first.  An empty element and [.] are dropped; [..] removes the last
    element when there is one that is not itself a kept [..], is kept on
    a relative path, and is dropped at the root. *)
Definition cleanStep (rooted : bool) (out : list string) (e : string)
  : list string :=
  if String.eqb e "" || String.eqb e "." then out
  else if String.eqb e ".." then
    match out with
    | top :: below =>
        if String.eqb top ".." then e :: out else below
    | [] => if rooted then out else [e]
    end
  else e :: out.

Definition Clean (p : string) : string :=
  if String.eqb p "" then "."
  else
    let rooted := IsAbs p in
    let out := rev (fold_left (cleanStep rooted) (strings.SplitSlash p) []) in
    if rooted then "/" +:+ strings.Join out "/"
    else match out with [] => "." | _ => strings.Join out "/" end.

(** [filepath.Join(a, b)]: from the first non-empty element on, the
    elements are joined by the separator and cleaned. *)
Definition Join (a b : string) : string :=
  if negb (String.eqb a "") then Clean (a +:+ "/" +:+ b)
  else if negb (String.eqb b "") then Clean b
  else "".

Definition ToSlash (p : string) : string := p.

(** The elements [Rel]'s loop steps through on a cleaned path. *)
Definition relElems (p : string) : list string :=
  if String.eqb p "" then []
  else if String.eqb p "/" then [""]
  else strings.SplitSlash p.

(** Drops the common leading elements (the loop that positions [b0] and
    [t0] at the first differing elements). *)
Fixpoint dropCommon (bs ts : list string) : list string * list string :=
  match bs, ts with
  | b :: bs', t :: ts' =>
      if String.eqb b t then dropCommon bs' ts' else (bs, ts)
  | _, _ => (bs, ts)
  end.

(** [filepath.Rel(basepath, targpath)]. *)
Definition Rel (basepath targpath : string) : string * option error :=
  let cantMake :=
    ErrorString ("Rel: can't make " +:+ targpath +:+ " relative to "
                 +:+ basepath) in
  let base := Clean basepath in
  let targ := Clean targpath in
  if String.eqb targ base then (".", None)
  else
    let base := if String.eqb base "." then "" else base in
    let baseSlashed := strings.HasPrefix base "/" in
    let targSlashed := strings.HasPrefix targ "/" in
    if negb (Bool.eqb baseSlashed targSlashed) then ("", Some cantMake)
    else
      match dropCommon (relElems base) (relElems targ) with
      | (b :: bs, t :: ts) =>
          (* the loop stopped at two differing elements *)
          if String.eqb b ".." then ("", Some cantMake)
          else (strings.Join (map (fun _ => "..") (b :: bs)) "/"
                +:+ "/" +:+ strings.Join (t :: ts) "/", None)
      | (b :: bs, []) =>
          (* base elements left: go up *)
          (strings.Join (map (fun _ => "..") (b :: bs)) "/", None)
      | ([], ts) => (strings.Join ts "/", None)
      end.

(** [filepath.Abs(path)]: a relative path is joined to the working
    directory; fails when the working directory cannot be found. *)
Definition Abs (p : string) : M (string * option error) :=
  if IsAbs p then ret (Clean p, None)
  else
    let* (wd, err) := os.Getwd in
    match err with
    | Some e => ret ("", Some e)
    | None => ret (Join wd p, None)
    end.

End filepath.

Module path.

Definition Clean := filepath.Clean.

(** [path.Join(a, b)]: empty elements are skipped, the rest joined by
    [/] and cleaned; the empty string when all are empty. *)
Definition Join (a b : string) : string :=
  if String.eqb a "" && String.eqb b "" then ""
  else if String.eqb a "" then Clean b
  else if String.eqb b "" then Clean a
  else Clean (a +:+ "/" +:+ b).

(** [path.Ext(p)]: the suffix from the final dot of the final element;
    empty when that element has no dot.  [extFrom] returns the suffix
    found in the rest of the string, if any. *)
Fixpoint extFrom (s : string) : option string :=
  match s with
  | EmptyString => None
  | String c r =>
      match extFrom r with
      | Some e => Some e
      | None =>
          if Ascii.eqb c "/" then Some ""
          else if Ascii.eqb c "." then Some s
          else None
      end
  end.

Definition Ext (p : string) : string := default "" (extFrom p).

End path.


(* ------------------------------------------------------------------ *)
(** ** Packages [go/types], [go/token] and [fmt] *)

Module types.

(** [types.Unsafe], the package object the [go/types] package
    allocates and marks complete when it is initialised. *)
Definition Unsafe : ptr := Some 1%positive.

(** The method [Complete] of a package pointer: reads the field through
    the pointer. *)
Definition Complete (pkg : ptr) : M bool :=
  fun w =>
    match pkg with
    | None => Panic "invalid memory address or nil pointer dereference"
    | Some l =>
        match h_pkgs (w_heap w) !! l with
        | Some o => Done w (pkg_complete o)
        | None => Panic "invalid memory address or nil pointer dereference"
        end
    end.

End types.

Module token.

(** [token.NewFileSet()]: a fresh location. *)
Definition NewFileSet : M ptr :=
  fun w =>
    let h := w_heap w in
    Done (setHeap (mkHeap (h_pkgs h) (h_maps h) (Pos.succ (h_next h))) w)
         (Some (h_next h)).

End token.

Module fmt.

(** [fmt.Errorf("directory `%s` outside available modules", pat)]. *)
Definition Errorf_outside (pat : string) : error :=
  ErrorString ("directory `" +:+ pat +:+ "` outside available modules").

End fmt.

(** [make(map[string]*types.Package)]. *)
Definition makeMap : M loc :=
  fun w =>
    let h := w_heap w in
    Done (setHeap (mkHeap (h_pkgs h) (<[h_next h := ∅]> (h_maps h))
                          (Pos.succ (h_next h))) w)
         (h_next h).

(** The map object behind a map value. *)
Definition mapAt (h : Heap) (m : loc) : gmap string ptr :=
  default ∅ (h_maps h !! m).

(** [v, ok := m[k]] as [Some v] or [None]. *)
Definition mapLookup (m : loc) (k : string) : M (option ptr) :=
  fun w => Done w (mapAt (w_heap w) m !! k).

(** [m[k] = v]. *)
Definition mapStore (m : loc) (k : string) (v : ptr) : M unit :=
  fun w =>
    let h := w_heap w in
    Done (setHeap (mkHeap (h_pkgs h) (<[m := <[k := v]> (mapAt h m)]> (h_maps h))
                          (h_next h)) w)
         tt.

(* ------------------------------------------------------------------ *)
(** ** [packages]: the configuration and the pattern listing *)

Record Config := mkConfig {
  ModRoot : string;
  ModPath : string;
  SupportedExts : option (gset string);
  Loaded : option loc;
  Fset : ptr
}.

(** [new(Config)]. *)
Definition new_Config : Config := mkConfig "" "" None None None.

Definition defaultSupportedExts : gset string := {[ ".go" ]}.

Definition getTempDir (p : option Config) : M string :=
  let* c := deref p in
  ret (filepath.Join (ModRoot c) ".gop/_dummy").

Definition multi : string := "/...".

(** The body of the loop of [doListPkgs] for one directory entry; the
    state is [(pkgPaths, noSouceFile)] and [descend] is the recursive
    call. *)
Definition scanEntry
    (descend : list string -> string -> string -> M (list string * option error))
    (pkgPathBase pat : string) (exts : gset string) (recursive : bool)
    (fi : DirEntry) (st : list string * bool) : M (list string * bool) :=
  let '(pkgPaths, noSouceFile) := st in
  let name := Name fi in
  if strings.HasPrefix name "_" then ret (pkgPaths, noSouceFile)
  else if IsDir fi then
    if recursive then
      let* (pkgPaths', _) :=
        descend pkgPaths (pkgPathBase +:+ "/" +:+ name) (pat +:+ "/" +:+ name) in
      ret (pkgPaths', noSouceFile)
    else ret (pkgPaths, noSouceFile)
  else if noSouceFile then
    let ext := path.Ext name in
    if bool_decide (ext ∈ exts) then ret (pkgPaths, false)
    else ret (pkgPaths, noSouceFile)
  else ret (pkgPaths, noSouceFile).

(** [doListPkgs]; [fuel] bounds the depth of the recursion. *)
Fixpoint doListPkgs (fuel : nat) (pkgPaths : list string)
    (pkgPathBase pat : string) (exts : gset string) (recursive : bool)
    : M (list string * option error) :=
  match fuel with
  | O => fun _ => OutOfFuel
  | S fuel' =>
      let* (fis, err) := os.ReadDir pat in
      match err with
      | Some e => ret (pkgPaths, Some e)
      | None =>
          let* (pkgPaths, noSouceFile) :=
            forRange
              (scanEntry (fun acc base sub => doListPkgs fuel' acc base sub exts true)
                         pkgPathBase pat exts recursive)
              fis (pkgPaths, true) in
          let pkgPaths :=
            if negb noSouceFile then pkgPaths ++ [pkgPathBase] else pkgPaths in
          ret (pkgPaths, None)
      end
  end.

(** The pattern after [listPkgs] has stripped the recursive marker. *)
Definition stripMulti (pat : string) : string :=
  if strings.HasSuffix pat multi then
    let pat := strings.slice pat 0 (String.length pat - String.length multi) in
    if String.eqb pat "" then "/" else pat
  else pat.

Definition listPkgs (fuel : nat) (p : option Config) (pkgPaths : list string)
    (pat modRoot : string) : M (list string * option error) :=
  let recursive := strings.HasSuffix pat multi in
  let pat := stripMulti pat in
  if strings.HasPrefix pat "." || strings.HasPrefix pat "/" then
    let* (patAbs, err1) := filepath.Abs pat in
    let '(patRel, err2) := filepath.Rel modRoot patAbs in
    if bool_decide (err1 ≠ None) || bool_decide (err2 ≠ None)
       || strings.HasPrefix patRel ".." then
      ret ([], Some (fmt.Errorf_outside pat))
    else
      let* c := deref p in
      let exts :=
        match SupportedExts c with
        | None => defaultSupportedExts
        | Some exts => exts
        end in
      let pkgPathBase := path.Join (ModPath c) (filepath.ToSlash patRel) in
      doListPkgs fuel pkgPaths pkgPathBase pat exts recursive
  else
    ret (pkgPaths ++ [pat], None).

(** The loop of [List]: stops at the first pattern whose [listPkgs]
    returns an error, with the list that call returned. *)
Fixpoint listLoop (fuel : nat) (conf : option Config) (modRoot : string)
    (pattern : list string) (pkgPaths : list string)
    : M (list string * option error) :=
  match pattern with
  | [] => ret (pkgPaths, None)
  | pat :: rest =>
      let* (pkgPaths, err) := listPkgs fuel conf pkgPaths pat modRoot in
      match err with
      | Some e => ret (pkgPaths, Some e)
      | None => listLoop fuel conf modRoot rest pkgPaths
      end
  end.

Definition List (fuel : nat) (conf : option Config) (pattern : list string)
    : M (list string * option error) :=
  let conf := match conf with None => Some new_Config | Some _ => conf end in
  let* c := deref conf in
  let* (modRoot, _) := filepath.Abs (ModRoot c) in
  listLoop fuel conf modRoot pattern [].

(* ------------------------------------------------------------------ *)
(** ** [packages]: the importer

    [loadDeps] (another file of the package) and the export-data reader
    [gcexportdata] (another module) are parameters.  [loadDeps] runs the
    Go tool on the patterns: it changes the file system and returns the
    artifact map.  The reader works on the Go heap: [Read] may allocate
    packages and add to the imports map it is given. *)

(** [type pkgExport = string]. *)
Abbreviation pkgExport := string (only parsing).

Record Importer := mkImporter {
  pkgs : gmap string pkgExport;
  loaded : loc;
  fset : ptr
}.

Section Importer.

Variable loadDeps :
  string -> list string -> Node -> Node * (gmap string pkgExport * option error).

Variable Reader : Type.
Variable gcexportdata_NewReader : os.File -> option Reader * option error.
Variable gcexportdata_Read :
  Reader -> ptr -> loc -> string -> Heap -> Heap * (ptr * option error).

Definition run_loadDeps (tempDir : string) (pkgPaths : list string)
  : M (gmap string pkgExport * option error) :=
  fun w =>
    let '(root', r) := loadDeps tempDir pkgPaths (w_root w) in
    Done (setRoot root' w) r.

Definition run_Read (r : Reader) (fset : ptr) (imports : loc) (path : string)
  : M (ptr * option error) :=
  fun w =>
    let '(h', r) := gcexportdata_Read r fset imports path (w_heap w) in
    Done (setHeap h' w) r.

Definition NewImporter (fuel : nat) (conf : option Config)
    (pattern : list string)
  : M (option Importer * list string * option error) :=
  let conf := match conf with None => Some new_Config | Some _ => conf end in
  let* (pkgPaths, err) := List fuel conf pattern in
  match err with
  | Some e => ret (None, pkgPaths, Some e)
  | None =>
      let* tempDir := getTempDir conf in
      let* (pkgs, err) := run_loadDeps tempDir pkgPaths in
      match err with
      | Some e => ret (None, pkgPaths, Some e)
      | None =>
          let* c := deref conf in
          let* fset :=
            match Fset c with
            | None => token.NewFileSet
            | Some f => ret (Some f)
            end in
          let* loaded :=
            match Loaded c with
            | None => makeMap
            | Some m => ret m
            end in
          let* _ := mapStore loaded "unsafe" types.Unsafe in
          ret (Some (mkImporter pkgs loaded fset), pkgPaths, None)
      end
  end.

Definition loadPkgExport (p : option Importer) (expfile pkgPath : string)
  : M (ptr * option error) :=
  let* (f, err) := os.Open expfile in
  match f, err with
  | _, Some e => ret (None, Some e)
  | None, None => panic "invalid memory address or nil pointer dereference"
  | Some f, None =>
      (* [defer f.Close()] runs after the result is computed *)
      let* result :=
        match gcexportdata_NewReader f with
        | (_, Some e) => ret (None, Some e)
        | (None, None) =>
            panic "invalid memory address or nil pointer dereference"
        | (Some r, None) =>
            let* i := deref p in
            run_Read r (fset i) (loaded i) pkgPath
        end in
      let* _ := os.Close f in
      ret result
  end.

Definition Import (p : option Importer) (pkgPath : string)
  : M (ptr * option error) :=
  let* i := deref p in
  let* hit := mapLookup (loaded i) pkgPath in
  let* cached :=
    match hit with
    | Some r => let* c := types.Complete r in ret (if c then Some r else None)
    | None => ret None
    end in
  match cached with
  | Some r => ret (r, None)
  | None =>
      match pkgs i !! pkgPath with
      | Some expfile => loadPkgExport p expfile pkgPath
      | None => ret (None, Some syscall.ENOENT)
      end
  end.

(** The loop of [Load]: [pkgs[i], err = p.Import(pkgPath)], stopping at
    the first error; a position not reached holds nil. *)
Fixpoint loadLoop (p : option Importer) (pkgPaths : list string)
  : M (list ptr * option error) :=
  match pkgPaths with
  | [] => ret ([], None)
  | pkgPath :: rest =>
      let* (pkg, err) := Import p pkgPath in
      match err with
      | Some e => ret (pkg :: map (fun _ => None) rest, Some e)
      | None =>
          let* (pkgs, err) := loadLoop p rest in
          ret (pkg :: pkgs, err)
      end
  end.

Definition Load (fuel : nat) (conf : option Config) (pattern : list string)
  : M (list ptr * option error) :=
  let* (r, err) := NewImporter fuel conf pattern in
  let '(p, pkgPaths) := r in
  match err with
  | Some e => ret ([], Some e)
  | None => loadLoop p pkgPaths
  end.

End Importer.

Arguments run_Read {Reader} _ _ _ _ _ _.
Arguments loadPkgExport {Reader} _ _ _ _ _ _.
Arguments Import {Reader} _ _ _ _ _.
Arguments loadLoop {Reader} _ _ _ _ _.
Arguments Load _ {Reader} _ _ _ _ _ _.

(* ================================================================== *)
(** * Vocabulary of the properties *)

(** A file name has no separator in it. *)
Fixpoint hasSlash (s : string) : bool :=
  match s with
  | EmptyString => false
  | String c r => Ascii.eqb c "/" || hasSlash r
  end.


(** The names a directory can hold: not empty, no separator, and neither
    [.] nor [..]. *)
Definition validName (s : string) : bool :=
  negb (String.eqb s "") && negb (hasSlash s)
  && negb (String.eqb s ".") && negb (String.eqb s "..").

(** A tree is well formed when every entry name in it is valid. *)
Fixpoint wfNode (n : Node) : bool :=
  match n with
  | File _ => true
  | Dir _ es =>
      (fix go (l : list (string * Node)) : bool :=
         match l with
         | [] => true
         | (name, x) :: rest => validName name && wfNode x && go rest
         end) es
  end.

Definition wfEntries (es : list (string * Node)) : bool :=
  forallb (fun e => validName (fst e) && wfNode (snd e)) es.

(** The height of a tree: a file is 0, a directory one more than its
    highest entry. *)
Fixpoint height (n : Node) : nat :=
  match n with
  | File _ => 0
  | Dir _ es =>
      S ((fix go (l : list (string * Node)) : nat :=
            match l with
            | [] => 0
            | (_, x) :: rest => Nat.max (height x) (go rest)
            end) es)
  end.

Definition heightEntries (es : list (string * Node)) : nat :=
  fold_right (fun e h => Nat.max (height (snd e)) h) 0 es.

(** [w'] is [w] after some more system calls were logged: the same
    tree, working directory and heap. *)
Definition extends (w w' : World) : Prop :=
  exists evs,
    w' = mkWorld (w_root w) (w_cwd w) (w_heap w) (w_log w ++ evs).

(** A directory entry that is a source file for [doListPkgs]: a file, not
    a directory, whose name does not start with [_] and whose extension is
    recognized. *)
Definition isSourceFile (exts : gset string) (fi : DirEntry) : bool :=
  negb (IsDir fi) && negb (strings.HasPrefix (Name fi) "_")
  && bool_decide (path.Ext (Name fi) ∈ exts).

Definition hasSourceFile (exts : gset string) (fis : list DirEntry) : bool :=
  existsb (isSourceFile exts) fis.

(** A pattern [listPkgs] looks up in the file system. *)
Definition isFsPattern (pat : string) : bool :=
  strings.HasPrefix pat "." || strings.HasPrefix pat "/".

(** What [filepath.Abs] returns with working directory [cwd], and the
    world it leaves. *)
Definition absPure (cwd : option (list string)) (p : string)
  : string * option error :=
  if filepath.IsAbs p then (filepath.Clean p, None)
  else match cwd with
       | Some loc => (filepath.Join ("/" +:+ strings.Join loc "/") p, None)
       | None => ("", Some (PathError "getwd" "." ENOENT))
       end.

Definition absWorld (p : string) (w : World) : World :=
  if filepath.IsAbs p then w else logEvent EvGetwd w.

(** The test of [listPkgs] on a file-system pattern: absolutization
    fails, or no relative path from the module root exists, or the
    relative path starts with [..]. *)
Definition escapes (cwd : option (list string)) (modRoot pat : string) : bool :=
  let '(patAbs, err1) := absPure cwd pat in
  let '(patRel, err2) := filepath.Rel modRoot patAbs in
  bool_decide (err1 ≠ None) || bool_decide (err2 ≠ None)
  || strings.HasPrefix patRel "..".

(** The configuration [List] and [NewImporter] work with, and the module
    root [List] computes from it. *)
Definition confOf (conf : option Config) : Config :=
  match conf with None => new_Config | Some c => c end.

Definition modRootOf (conf : option Config) (w : World) : string :=
  fst (absPure (w_cwd w) (ModRoot (confOf conf))).

Definition extsOf (c : Config) : gset string :=
  match SupportedExts c with
  | None => defaultSupportedExts
  | Some exts => exts
  end.

(** The relative path [listPkgs] computes for a pattern. *)
Definition relOf (cwd : option (list string)) (modRoot pat : string) : string :=
  fst (filepath.Rel modRoot (fst (absPure cwd pat))).

(** A run that does not panic and, when it returns, has only added to the
    log. *)
Definition safe {A} (w : World) (r : Res A) : Prop :=
  match r with
  | Done w' _ => extends w w'
  | Panic _ => False
  | OutOfFuel => True
  end.

(** The value a run returns, without the world. *)
Definition resultOf {A} (r : Res A) : option A :=
  match r with
  | Done _ a => Some a
  | _ => None
  end.

(** The cache holds no complete package for a path: no entry, or an
    entry whose package is not complete. *)
Definition notCached (h : Heap) (m : loc) (pkgPath : string) : Prop :=
  mapAt h m !! pkgPath = None
  \/ exists l o,
       mapAt h m !! pkgPath = Some (Some l)
       /\ h_pkgs h !! l = Some o /\ pkg_complete o = false.

(** The heap after package [go/types] is initialised: [types.Unsafe] is
    allocated and complete. *)
Definition unsafeInitialised (h : Heap) : Prop :=
  exists o, h_pkgs h !! 1%positive = Some o /\ pkg_complete o = true.

(** ** A module on disk

    The module of the end-to-end example: root [/m], import path
    [example.com/m], files [/m/a/x.go] and [/m/b/sub/y.go]; the working
    directory is the module root. *)
Module Sample.

Definition tree : Node :=
  Dir true
    [("m", Dir true
        [("a", Dir true [("x.go", File "package a")]);
         ("b", Dir true
            [("sub", Dir true [("y.go", File "package sub")])])])].

Definition heap : Heap :=
  mkHeap {[ 1%positive := mkPackage "unsafe" true ]} ∅ 2%positive.

Definition world : World := mkWorld tree (Some ["m"]) heap [].

Definition conf : option Config :=
  Some (mkConfig "/m" "example.com/m" None None None).

(** The same module with a directory [/m/vendor] that cannot be read. *)
Definition lockedTree : Node :=
  Dir true
    [("m", Dir true
        [("a", Dir true [("x.go", File "package a")]);
         ("vendor", Dir false [("v.go", File "package vendor")])])].

Definition lockedWorld : World := mkWorld lockedTree (Some ["m"]) heap [].

(** A module whose root is the root of the file system. *)
Definition rootConf : option Config :=
  Some (mkConfig "/" "example.com/m" None None None).

(** A dependency loader that finds one artifact, and an export-data
    reader that takes any non-empty file for the export data of a
    complete package. *)
Definition loadDeps (tempDir : string) (pkgPaths : list string) (root : Node)
  : Node * (gmap string string * option error) :=
  (root, ({[ "example.com/m/a" := "/m/a/x.go" ]}, None)).

Definition NewReader (f : os.File) : option string * option error :=
  match os.f_node f with
  | File data => (Some data, None)
  | Dir _ _ => (None, Some (PathError "read" (os.f_name f) EISDIR))
  end.

Definition Read (r : string) (fset : ptr) (imports : loc) (path : string)
    (h : Heap) : Heap * (ptr * option error) :=
  if String.eqb r "" then (h, (None, Some (ErrorString "no export data")))
  else
    let l := h_next h in
    (mkHeap (<[l := mkPackage path true]> (h_pkgs h))
            (<[imports := <[path := Some l]> (mapAt h imports)]> (h_maps h))
            (Pos.succ l),
     (Some l, None)).

(** An importer over that artifact with the cache at location 5. *)
Definition importer : Importer :=
  mkImporter {[ "example.com/m/a" := "/m/a/x.go" ]} 5%positive None.

(** The world after that importer has imported [example.com/m/a]. *)
Definition worldAfterImport : World :=
  mkWorld tree (Some ["m"])
    (mkHeap (<[ 2%positive := mkPackage "example.com/m/a" true ]> (h_pkgs heap))
            {[ 5%positive := {[ "example.com/m/a" := Some 2%positive ]} ]}
            3%positive)
    [EvOpen "/m/a/x.go"; EvClose "/m/a/x.go"].

(** The importer [NewImporter] returns for [./...] in the sample world,
    and the world it leaves. *)
Definition importerOfList : Importer :=
  mkImporter {[ "example.com/m/a" := "/m/a/x.go" ]} 3%positive
             (Some 2%positive).

Definition worldAfterNewImporter : World :=
  mkWorld tree (Some ["m"])
    (mkHeap (h_pkgs heap)
            {[ 3%positive := {[ "unsafe" := types.Unsafe ]} ]}
            4%positive)
    [EvGetwd; EvReadDir "."; EvReadDir "./a"; EvReadDir "./b";
     EvReadDir "./b/sub"].

End Sample.

(** The cache holds the complete package [r] for a path. *)
Definition cached (h : Heap) (m : loc) (pkgPath : string) (r : ptr) : Prop :=
  mapAt h m !! pkgPath = Some r
  /\ exists l o, r = Some l /\ h_pkgs h !! l = Some o /\ pkg_complete o = true.

(** The world with another file system and working directory. *)
Definition withFiles (root : Node) (cwd : option (list string)) (w : World)
  : World :=
  mkWorld root cwd (w_heap w) (w_log w).

(** ** Vocabulary of the further properties *)

(** Names in the order [os.ReadDir] returns them, and without repeats. *)
Fixpoint sortedNames (l : list string) : bool :=
  match l with
  | a :: (b :: _) as rest => String.leb a b && sortedNames rest
  | _ => true
  end.

Fixpoint distinctNames (l : list string) : bool :=
  match l with
  | [] => true
  | a :: rest => negb (existsb (String.eqb a) rest) && distinctNames rest
  end.

(** A tree whose directories hold valid, distinct names in sorted
    order. *)
Fixpoint orderedNode (n : Node) : bool :=
  match n with
  | File _ => true
  | Dir _ es =>
      sortedNames (map fst es) && distinctNames (map fst es)
      && (fix go (l : list (string * Node)) : bool :=
            match l with
            | [] => true
            | (name, x) :: rest => validName name && orderedNode x && go rest
            end) es
  end.

Definition orderedEntries (es : list (string * Node)) : bool :=
  forallb (fun e => validName (fst e) && orderedNode (snd e)) es.

(** The import paths of a tree, read off the tree: for a directory that
    can be read, the paths of its entries in order, those whose name
    starts with [_] left out, then its own path when it holds a source
    file. *)
Fixpoint listTree (exts : gset string) (base : string) (n : Node)
  : list string :=
  match n with
  | File _ => []
  | Dir false _ => []
  | Dir true es =>
      (fix below (l : list (string * Node)) : list string :=
         match l with
         | [] => []
         | (name, x) :: rest =>
             (if strings.HasPrefix name "_" then []
              else listTree exts (base +:+ "/" +:+ name) x)
             ++ below rest
         end) es
      ++ (if hasSourceFile exts (map fs.entryOf es) then [base] else [])
  end.

Definition listBelow (exts : gset string) (base : string)
    (es : list (string * Node)) : list string :=
  flat_map (fun e => if strings.HasPrefix (fst e) "_" then []
                     else listTree exts (base +:+ "/" +:+ fst e) (snd e))
           es.

(** A result with a list put in front of the list it returns. *)
Definition prepend {B} (acc : list string) (r : Res (list string * B))
  : Res (list string * B) :=
  match r with
  | Done w (l, b) => Done w (acc ++ l, b)
  | Panic msg => Panic msg
  | OutOfFuel => OutOfFuel
  end.

(** The system calls that only read names: [Getwd] and [ReadDir]. *)
Definition isLookup (ev : Event) : bool :=
  match ev with
  | EvGetwd | EvReadDir _ => true
  | EvOpen _ | EvClose _ => false
  end.

(** A run that does not panic and, when it returns, has only added
    lookups to the log. *)
Definition lookupsOnly {A} (w : World) (r : Res A) : Prop :=
  match r with
  | Done w' _ =>
      exists evs,
        w' = mkWorld (w_root w) (w_cwd w) (w_heap w) (w_log w ++ evs)
        /\ forallb isLookup evs = true
  | Panic _ => False
  | OutOfFuel => True
  end.

(** The sample world with a cache at location 5 that holds a nil pointer
    under a path. *)
Module Faulty.

Definition world : World :=
mkWorld Sample.tree (Some ["m"])
  (mkHeap (h_pkgs Sample.heap)
          {[ 5%positive := {[ "example.com/m/a" := @None loc ]} ]}
          2%positive)
  [].

End Faulty.

(* ================================================================== *)
(** * Properties *)

(** ** Strings and paths *)

(** The path functions agree with the Go library on its documented
    cases. *)
Example Clean_cases :
  map filepath.Clean
      [""; "abc/"; "a//b/./c/.."; "a/../../b"; "/../a"; "/a/b/../../.."; "../.."]
  = ["."; "abc"; "a/b"; "../b"; "/a"; "/"; "../.."].
Proof. reflexivity. Qed.

Example Rel_cases :
  map (fun bt => filepath.Rel (fst bt) (snd bt))
      [("/m", "/m"); ("/m", "/m/b/sub"); ("/m", "/"); ("/m/x/y", "/m/a"); ("/m", "/mm")]
  = [(".", None); ("b/sub", None); ("..", None); ("../../a", None);
     ("../mm", None)].
Proof. reflexivity. Qed.

Example Ext_cases :
  map path.Ext ["x.go"; ".go"; "a.b/c"; "a.tar.gz"; "Makefile"; "a."]
  = [".go"; ".go"; ""; ".gz"; ""; "."].
Proof. reflexivity. Qed.

Example readDir_sorts :
  fs.readDir (Dir true [("b", File "1"); ("_c", Dir true []); ("a", Dir false [])])
             None "/"
  = ([mkDirEntry "_c" true; mkDirEntry "a" true; mkDirEntry "b" false], None).
Proof. reflexivity. Qed.

Lemma eqb_false_ne (a b : string) : String.eqb a b = false <-> a <> b.
Proof. apply String.eqb_neq. Qed.

Lemma length_app_str (a b : string) :
  String.length (a +:+ b) = String.length a + String.length b.
Proof. induction a as [|c a IH]; simpl; [reflexivity | now rewrite IH]. Qed.

Lemma substring_full (s : string) : String.substring 0 (String.length s) s = s.
Proof. induction s as [|c s IH]; simpl; [reflexivity | now rewrite IH]. Qed.

Lemma substring_0_length (n : nat) (s : string) :
  n <= String.length s -> String.length (String.substring 0 n s) = n.
Proof.
  revert s; induction n as [|n IH]; intros [|c s] H; simpl in *; try lia; auto.
  rewrite IH; lia.
Qed.

Lemma substring_0_head (n : nat) (c : ascii) (s : string) :
  String.substring 0 (S n) (String c s) = String c (String.substring 0 n s).
Proof. reflexivity. Qed.

Lemma SplitSlash_nonempty (s : string) : strings.SplitSlash s <> [].
Proof.
  destruct s as [|c s]; simpl; [discriminate|].
  destruct (Ascii.eqb c "/"); [discriminate|].
  destruct (strings.SplitSlash s); discriminate.
Qed.

Lemma SplitSlash_app (a b : string) :
  strings.SplitSlash (a +:+ String "/" b)
  = strings.SplitSlash a ++ strings.SplitSlash b.
Proof.
  induction a as [|c a IH]; simpl; [reflexivity|].
  destruct (Ascii.eqb c "/") eqn:E.
  - now rewrite IH.
  - rewrite IH. destruct (strings.SplitSlash a) eqn:Ea.
    + now apply SplitSlash_nonempty in Ea.
    + reflexivity.
Qed.

Lemma SplitSlash_name (s : string) :
  hasSlash s = false -> strings.SplitSlash s = [s].
Proof.
  induction s as [|c s IH]; simpl; [reflexivity|].
  intros H. apply orb_false_iff in H as [Hc Hs].
  rewrite Hc, (IH Hs). reflexivity.
Qed.

Lemma HasPrefix_app_slash (a b : string) :
  a <> "" ->
  strings.HasPrefix (a +:+ b) "/" = strings.HasPrefix a "/".
Proof.
  destruct a as [|c a]; [congruence|]. intros _. simpl.
  now destruct (a +:+ b), a.
Qed.

Lemma app_str_nonempty (a b : string) : a +:+ String "/" b <> "".
Proof. destruct a; discriminate. Qed.

Lemma HasPrefix_char (s : string) (c : ascii) :
  strings.HasPrefix s (String c "") = true <-> exists r, s = String c r.
Proof.
  destruct s as [|d s]; simpl.
  - split; [discriminate | intros [r H]; discriminate].
  - destruct (Ascii.eqb_spec c d) as [->|Hne].
    + split; [eauto | intros _; now destruct s].
    + split; [discriminate | intros [r H]; congruence].
Qed.

(** Only the marker alone is stripped to the empty string. *)
Lemma slice_empty_multi (pat : string) :
  strings.HasSuffix pat multi = true ->
  strings.slice pat 0 (String.length pat - String.length multi) = "" ->
  pat = multi.
Proof.
  intros Hs He. unfold strings.HasSuffix in Hs.
  apply andb_true_iff in Hs as [Hlen Hs].
  apply Nat.leb_le in Hlen. apply String.eqb_eq in Hs.
  unfold strings.slice in *. rewrite Nat.sub_0_r in He.
  change (String.length multi) with 4 in *.
  assert (Hl : String.length (String.substring 0 (String.length pat - 4) pat)
               = String.length pat - 4) by (apply substring_0_length; lia).
  rewrite He in Hl. simpl in Hl.
  assert (String.length pat = 4) by lia.
  replace (String.length pat - (String.length pat - 4)) with 4 in Hs by lia.
  replace (String.length pat - 4) with 0 in Hs by lia.
  rewrite <- Hs. replace 4 with (String.length pat) by lia.
  symmetry. apply substring_full.
Qed.

Lemma stripMulti_slice (pat : string) :
  pat <> multi ->
  stripMulti pat
  = if strings.HasSuffix pat multi
    then strings.slice pat 0 (String.length pat - String.length multi)
    else pat.
Proof.
  intros Hne. unfold stripMulti.
  destruct (strings.HasSuffix pat multi) eqn:Hs; [|reflexivity].
  destruct (String.eqb_spec
              (strings.slice pat 0 (String.length pat - String.length multi)) "")
    as [He|He]; [|reflexivity].
  exfalso. now apply Hne, slice_empty_multi.
Qed.

(** Stripping the recursive marker leaves the first byte in place, except
    for the pattern that is the marker alone. *)
Lemma stripMulti_first (pat : string) (c : ascii) :
  pat <> multi ->
  strings.HasPrefix (stripMulti pat) (String c "") = strings.HasPrefix pat (String c "").
Proof.
  intros Hne. rewrite (stripMulti_slice _ Hne).
  destruct (strings.HasSuffix pat multi) eqn:Hs; [|reflexivity].
  pose proof (fun H => Hne (slice_empty_multi pat Hs H)) as He.
  unfold strings.slice in *. rewrite Nat.sub_0_r in *.
  destruct pat as [|d pat]; [reflexivity|].
  destruct (String.length (String d pat) - String.length multi) eqn:En;
    [now simpl in He|].
  rewrite substring_0_head. simpl.
  destruct (Ascii.eqb c d); [|reflexivity].
  now destruct (String.substring 0 n pat), pat.
Qed.

Lemma stripMulti_plain (pat : string) :
  strings.HasSuffix pat multi = false -> stripMulti pat = pat.
Proof. intros H. unfold stripMulti. now rewrite H. Qed.

(** The relative path from a module root to the root of the file system:
    [.] when the module root is the root, otherwise none or one that
    starts with [..]. *)
Lemma Rel_to_root (modRoot : string) :
  (filepath.Clean modRoot = "/" -> filepath.Rel modRoot "/" = (".", None))
  /\ (filepath.Clean modRoot <> "/" ->
      snd (filepath.Rel modRoot "/") <> None
      \/ strings.HasPrefix (fst (filepath.Rel modRoot "/")) ".." = true).
Proof.
  unfold filepath.Rel. change (filepath.Clean "/") with "/".
  split; intros H.
  - now rewrite H.
  - destruct (String.eqb_spec "/" (filepath.Clean modRoot)) as [He|_];
      [now symmetry in He|].
    destruct (String.eqb_spec (filepath.Clean modRoot) ".") as [Hd|Hdot].
    + left. simpl. discriminate.
    + destruct (strings.HasPrefix (filepath.Clean modRoot) "/") eqn:Hp.
      * apply HasPrefix_char in Hp as [r Hr]. rewrite Hr in *.
        change (strings.HasPrefix "/" "/") with true. cbn [Bool.eqb negb].
        change (filepath.relElems "/") with [""].
        assert (He : filepath.relElems (String "/" r)
                     = "" :: strings.SplitSlash r).
        { unfold filepath.relElems.
          destruct (String.eqb_spec (String "/" r) "") as [|_]; [discriminate|].
          now destruct (String.eqb_spec (String "/" r) "/") as [|_]. }
        rewrite He.
        destruct (strings.SplitSlash r) as [|b bs] eqn:Hsp;
          [now apply SplitSlash_nonempty in Hsp|].
        change (filepath.dropCommon ("" :: b :: bs) [""])
          with (b :: bs, @nil string).
        right. cbn [fst map strings.Join]. now destruct (map _ bs).
      * left. change (strings.HasPrefix "/" "/") with true. simpl. discriminate.
Qed.

(** ** The monad *)

Lemma extends_refl (w : World) : extends w w.
Proof. exists []. destruct w; simpl. now rewrite app_nil_r. Qed.

Lemma extends_trans (a b c : World) : extends a b -> extends b c -> extends a c.
Proof.
  intros [e1 ->] [e2 ->]. exists (e1 ++ e2). simpl. now rewrite app_assoc.
Qed.

Lemma extends_log (ev : Event) (w : World) : extends w (logEvent ev w).
Proof. now exists [ev]. Qed.

Lemma extends_root (w w' : World) : extends w w' -> w_root w' = w_root w.
Proof. now intros [e ->]. Qed.

Lemma extends_cwd (w w' : World) : extends w w' -> w_cwd w' = w_cwd w.
Proof. now intros [e ->]. Qed.

Lemma extends_heap (w w' : World) : extends w w' -> w_heap w' = w_heap w.
Proof. now intros [e ->]. Qed.

Create HintDb world.
#[local] Hint Resolve extends_refl extends_log : world.

Lemma bind_Done {A B} (m : M A) (k : A -> M B) (w w' : World) (a : A) :
  m w = Done w' a -> bind m k w = k a w'.
Proof. intros H. unfold bind. now rewrite H. Qed.

(** ** The directory tree *)

Lemma wfNode_Dir (r : bool) (es : list (string * Node)) :
  wfNode (Dir r es) = wfEntries es.
Proof.
  simpl. induction es as [|[name x] es IH]; simpl; [reflexivity|].
  now rewrite IH.
Qed.

Lemma height_Dir (r : bool) (es : list (string * Node)) :
  height (Dir r es) = S (heightEntries es).
Proof.
  simpl. f_equal. induction es as [|[name x] es IH]; simpl; [reflexivity|].
  now rewrite IH.
Qed.

Lemma assoc_In (name : string) (es : list (string * Node)) (x : Node) :
  fs.assoc name es = Some x -> In (name, x) es.
Proof.
  induction es as [|[n y] es IH]; simpl; [discriminate|].
  destruct (String.eqb_spec n name) as [->|Hne].
  - intros [= ->]. now left.
  - intros H. right. auto.
Qed.

Lemma wfEntries_In (es : list (string * Node)) (name : string) (x : Node) :
  wfEntries es = true -> In (name, x) es ->
  validName name = true /\ wfNode x = true.
Proof.
  unfold wfEntries. rewrite forallb_forall. intros H Hin.
  specialize (H _ Hin). simpl in H. now apply andb_true_iff in H.
Qed.

Lemma heightEntries_In (es : list (string * Node)) (name : string) (x : Node) :
  In (name, x) es -> height x <= heightEntries es.
Proof.
  induction es as [|e es IH]; simpl; [tauto|].
  intros [->|Hin]; simpl; [lia|]. specialize (IH Hin). lia.
Qed.

Lemma nodeAt_app (root : Node) (loc : list string) (e : string) :
  fs.nodeAt root (loc ++ [e])
  = match fs.nodeAt root loc with
    | Some (Dir _ es) => fs.assoc e es
    | _ => None
    end.
Proof.
  revert root. induction loc as [|a loc IH]; intros root; simpl.
  - destruct root as [|r es]; [reflexivity|]. now destruct (fs.assoc e es).
  - destruct root as [|r es]; [reflexivity|].
    destruct (fs.assoc a es); [apply IH | reflexivity].
Qed.

Lemma nodeAt_wf (root : Node) (loc : list string) (n : Node) :
  wfNode root = true -> fs.nodeAt root loc = Some n ->
  wfNode n = true /\ height n <= height root.
Proof.
  revert root. induction loc as [|a loc IH]; intros root Hwf; simpl.
  - intros [= ->]. auto.
  - destruct root as [|r es]; [discriminate|].
    destruct (fs.assoc a es) as [x|] eqn:Ha; [|discriminate].
    intros Hn. apply assoc_In in Ha. rewrite wfNode_Dir in Hwf.
    destruct (wfEntries_In _ _ _ Hwf Ha) as [_ Hx].
    destruct (IH _ Hx Hn) as [Hw Hh]. split; [assumption|].
    rewrite height_Dir. pose proof (heightEntries_In _ _ _ Ha). lia.
Qed.

Lemma walk_app (root : Node) (a b : list string) (cur : list string) :
  fs.walk root cur (a ++ b)
  = match fs.walk root cur a with
    | inl e => inl e
    | inr c => fs.walk root c b
    end.
Proof.
  revert cur. induction a as [|e a IH]; intros cur; simpl; [reflexivity|].
  destruct (fs.nodeAt root cur) as [[|r es]|]; try reflexivity.
  destruct (String.eqb e "" || String.eqb e "."); [apply IH|].
  destruct (String.eqb e ".."); [apply IH|].
  destruct (fs.assoc e es); [apply IH | reflexivity].
Qed.

(** Resolving [pat/name] below a directory that [pat] resolves to gives
    the entry of that name. *)
Lemma resolve_child (root : Node) (cwd : option (list string))
    (pat name : string) (r : bool) (es : list (string * Node)) :
  validName name = true ->
  fs.resolve root cwd pat = inr (Dir r es) ->
  fs.resolve root cwd (pat +:+ "/" +:+ name)
  = match fs.assoc name es with
    | Some x => inr x
    | None => inl ENOENT
    end.
Proof.
  intros Hv. unfold validName in Hv.
  repeat (apply andb_true_iff in Hv as [Hv ?]).
  apply negb_true_iff in Hv.
  unfold fs.resolve.
  destruct (String.eqb_spec pat "") as [->|Hpat]; [discriminate|].
  change ("/" +:+ name) with (String "/" name).
  destruct (String.eqb_spec (pat +:+ String "/" name) "") as [He|_];
    [now apply app_str_nonempty in He|].
  rewrite HasPrefix_app_slash by assumption.
  destruct (if strings.HasPrefix pat "/" then Some [] else cwd) as [start|];
    [|discriminate].
  rewrite SplitSlash_app, walk_app.
  destruct (fs.walk root start (strings.SplitSlash pat)) as [e|loc];
    [discriminate|].
  destruct (fs.nodeAt root loc) as [n|] eqn:Hn; [|discriminate].
  intros [= ->].
  rewrite SplitSlash_name by now apply negb_true_iff.
  simpl. rewrite Hn, Hv. simpl.
  repeat match goal with H : negb _ = true |- _ => apply negb_true_iff in H end.
  match goal with H : String.eqb name "." = false |- _ => rewrite H end.
  match goal with H : String.eqb name ".." = false |- _ => rewrite H end.
  destruct (fs.assoc name es) as [x|] eqn:Ha; [|reflexivity].
  now rewrite nodeAt_app, Hn, Ha.
Qed.

Lemma In_insertEntry (d x : DirEntry) (l : list DirEntry) :
  In x (fs.insertEntry d l) <-> x = d \/ In x l.
Proof.
  induction l as [|y l IH]; simpl; [intuition|].
  destruct (String.leb (Name d) (Name y)); simpl; [intuition|].
  rewrite IH. intuition.
Qed.

Lemma In_sortEntries (x : DirEntry) (l : list DirEntry) :
  In x (fs.sortEntries l) <-> In x l.
Proof.
  induction l as [|y l IH]; simpl; [reflexivity|].
  rewrite In_insertEntry, IH. intuition.
Qed.

(** What a successful [os.ReadDir] says about the tree. *)
Lemma readDir_ok (root : Node) (cwd : option (list string)) (pat : string)
    (fis : list DirEntry) :
  fs.readDir root cwd pat = (fis, None) ->
  exists es,
    fs.resolve root cwd pat = inr (Dir true es)
    /\ fis = fs.sortEntries (map fs.entryOf es).
Proof.
  unfold fs.readDir.
  destruct (fs.resolve root cwd pat) as [e|[d|[|] es]]; try discriminate.
  intros [= <-]. eauto.
Qed.

Lemma readDir_entry (es : list (string * Node)) (fi : DirEntry) :
  In fi (fs.sortEntries (map fs.entryOf es)) ->
  exists x, In (Name fi, x) es.
Proof.
  rewrite In_sortEntries, in_map_iff. intros [[name x] [<- Hin]].
  now exists x.
Qed.

(** ** The scan of a directory *)

Lemma forRange_total {A S} (body : A -> S -> M S) (l : list A) :
  forall (s : S) (w : World),
    (forall x s0 w0, In x l -> extends w w0 ->
       exists w1 s1, body x s0 w0 = Done w1 s1 /\ extends w0 w1) ->
    exists w' s', forRange body l s w = Done w' s' /\ extends w w'.
Proof.
  induction l as [|x l IH]; intros s w Hbody; simpl.
  - exists w, s. auto with world.
  - destruct (Hbody x s w) as (w1 & s1 & H1 & E1); [now left | auto with world |].
    rewrite (bind_Done _ _ _ _ _ H1).
    destruct (IH s1 w1) as (w' & s' & H' & E').
    + intros y s0 w0 Hin E0. apply Hbody; [now right|].
      eapply extends_trans; eassumption.
    + exists w', s'. split; [assumption|]. eapply extends_trans; eassumption.
Qed.

Lemma forRange_mono {A S} (b1 b2 : A -> S -> M S) (l : list A) :
  (forall x s w w' s', b1 x s w = Done w' s' -> b2 x s w = Done w' s') ->
  forall s w w' s',
    forRange b1 l s w = Done w' s' -> forRange b2 l s w = Done w' s'.
Proof.
  intros Hb. induction l as [|x l IH]; intros s w w' s'; simpl; [auto|].
  unfold bind. destruct (b1 x s w) as [w1 s1| |] eqn:E1; try discriminate.
  rewrite (Hb _ _ _ _ _ E1). apply IH.
Qed.

Lemma scanEntry_mono (d1 d2 : list string -> string -> string -> M (list string * option error))
    (base pat : string) (exts : gset string) (recursive : bool) :
  (forall a b s w w' r, d1 a b s w = Done w' r -> d2 a b s w = Done w' r) ->
  forall fi st w w' st',
    scanEntry d1 base pat exts recursive fi st w = Done w' st' ->
    scanEntry d2 base pat exts recursive fi st w = Done w' st'.
Proof.
  intros Hd fi [acc flag] w w' st'. unfold scanEntry.
  destruct (strings.HasPrefix (Name fi) "_"); [auto|].
  destruct (IsDir fi); [|auto]. destruct recursive; [|auto].
  unfold bind.
  destruct (d1 acc _ _ w) as [w1 r1| |] eqn:E1; try discriminate.
  now rewrite (Hd _ _ _ _ _ _ E1).
Qed.

Lemma doListPkgs_S (fuel : nat) (acc : list string) (base pat : string)
    (exts : gset string) (recursive : bool) (w : World) :
  doListPkgs (S fuel) acc base pat exts recursive w
  = match fs.readDir (w_root w) (w_cwd w) pat with
    | (_, Some e) => Done (logEvent (EvReadDir pat) w) (acc, Some e)
    | (fis, None) =>
        match forRange
                (scanEntry (fun a b s => doListPkgs fuel a b s exts true)
                           base pat exts recursive)
                fis (acc, true) (logEvent (EvReadDir pat) w) with
        | Done w' (mid, noSouceFile) =>
            Done w' (if negb noSouceFile then mid ++ [base] else mid, None)
        | Panic msg => Panic msg
        | OutOfFuel => OutOfFuel
        end
    end.
Proof.
  cbn [doListPkgs]. unfold bind, os.ReadDir. cbn [logEvent w_root w_cwd].
  destruct (fs.readDir (w_root w) (w_cwd w) pat) as [fis [e|]]; [reflexivity|].
  destruct (forRange _ fis (acc, true) _) as [w' [mid f]| |]; reflexivity.
Qed.

(** More fuel does not change a result. *)
Lemma doListPkgs_mono1 (fuel : nat) :
  forall acc base pat exts recursive w w' r,
    doListPkgs fuel acc base pat exts recursive w = Done w' r ->
    doListPkgs (S fuel) acc base pat exts recursive w = Done w' r.
Proof.
  induction fuel as [|fuel IH]; intros acc base pat exts recursive w w' r;
    [discriminate|].
  rewrite !doListPkgs_S.
  destruct (fs.readDir (w_root w) (w_cwd w) pat) as [fis [e|]]; [auto|].
  destruct (forRange _ fis (acc, true) _) as [w2 st| |] eqn:E;
    try discriminate.
  eapply forRange_mono in E as ->; [auto|].
  intros x s w0 w0' s'. apply scanEntry_mono.
  intros; now apply IH.
Qed.

Lemma doListPkgs_mono (k fuel : nat) :
  forall acc base pat exts recursive w w' r,
    doListPkgs fuel acc base pat exts recursive w = Done w' r ->
    doListPkgs (fuel + k) acc base pat exts recursive w = Done w' r.
Proof.
  induction k as [|k IH]; intros * H.
  - now rewrite Nat.add_0_r.
  - rewrite Nat.add_succ_r. apply doListPkgs_mono1. now apply IH.
Qed.

(** On a well-formed tree [doListPkgs] returns when its fuel exceeds the
    height of the directory it scans; its error is the one of reading
    that directory, and it only adds to the log. *)
Lemma doListPkgs_total (fuel : nat) :
  forall acc base pat exts recursive w,
    wfNode (w_root w) = true ->
    (forall n, fs.resolve (w_root w) (w_cwd w) pat = inr n -> height n <= fuel) ->
    exists w' r,
      doListPkgs (S fuel) acc base pat exts recursive w
      = Done w' (r, snd (fs.readDir (w_root w) (w_cwd w) pat))
      /\ extends w w'.
Proof.
  induction fuel as [|fuel IH]; intros acc base pat exts recursive w Hwf Hh;
    rewrite doListPkgs_S;
    destruct (fs.readDir (w_root w) (w_cwd w) pat) as [fis [e|]] eqn:Hrd;
    try (do 2 eexists; split; [reflexivity | auto with world]).
  - apply readDir_ok in Hrd as (es & Hres & _).
    apply Hh in Hres. rewrite height_Dir in Hres. lia.
  - apply readDir_ok in Hrd as (es & Hres & ->).
    pose proof (Hh _ Hres) as Hle. rewrite height_Dir in Hle.
    assert (Hwfes : wfEntries es = true).
    { unfold fs.resolve in Hres.
      destruct (String.eqb pat ""); [discriminate|].
      destruct (if strings.HasPrefix pat "/" then Some [] else w_cwd w);
        [|discriminate].
      destruct (fs.walk _ _ _) as [|loc]; [discriminate|].
      destruct (fs.nodeAt (w_root w) loc) as [n|] eqn:Hn; [|discriminate].
      injection Hres as ->.
      apply (nodeAt_wf _ _ _ Hwf) in Hn as [Hn _].
      now rewrite wfNode_Dir in Hn. }
    set (w1 := logEvent (EvReadDir pat) w).
    destruct (forRange_total
                (scanEntry (fun a b s => doListPkgs (S fuel) a b s exts true)
                           base pat exts recursive)
                (fs.sortEntries (map fs.entryOf es)) (acc, true) w1)
      as (w2 & [acc2 flag2] & Hloop & E2).
    { intros fi [a f] w0 Hin E0. unfold scanEntry.
      destruct (strings.HasPrefix (Name fi) "_");
        [do 2 eexists; split; [reflexivity | auto with world]|].
      destruct (IsDir fi);
        [|destruct f; [destruct (bool_decide _)|];
          do 2 eexists; (split; [reflexivity | auto with world])].
      destruct recursive;
        [|do 2 eexists; split; [reflexivity | auto with world]].
      assert (E : extends w w0)
        by (eapply extends_trans; [apply extends_log | exact E0]).
      destruct (readDir_entry _ _ Hin) as [x Hx].
      destruct (wfEntries_In _ _ _ Hwfes Hx) as [Hv _].
      destruct (IH a (base +:+ "/" +:+ Name fi) (pat +:+ "/" +:+ Name fi)
                   exts true w0) as (w3 & r3 & H3 & E3).
      - now rewrite (extends_root _ _ E).
      - rewrite (extends_root _ _ E), (extends_cwd _ _ E).
        rewrite (resolve_child _ _ _ _ _ _ Hv Hres).
        destruct (fs.assoc (Name fi) es) as [y|] eqn:Hy; [|discriminate].
        intros n [= <-]. apply assoc_In in Hy.
        pose proof (heightEntries_In _ _ _ Hy). lia.
      - unfold bind. rewrite H3. do 2 eexists; split; [reflexivity | assumption]. }
    fold w1. rewrite Hloop. do 2 eexists. split; [reflexivity|].
    eapply extends_trans; [apply extends_log | exact E2].
Qed.

(** The scan splits into the descent into the subdirectories, which
    yields the list, and the look at the files, which yields the flag. *)
Lemma scan_split
    (descend : list string -> string -> string -> M (list string * option error))
    (base pat : string) (exts : gset string) (recursive : bool)
    (fis : list DirEntry) :
  forall acc flag w,
    forRange (scanEntry descend base pat exts recursive) fis (acc, flag) w
    = match forRange (scanEntry descend base pat exts recursive)
              (filter IsDir fis) (acc, true) w with
      | Done w' (mid, _) =>
          Done w' (mid, flag && negb (hasSourceFile exts fis))
      | Panic msg => Panic msg
      | OutOfFuel => OutOfFuel
      end.
Proof.
  induction fis as [|fi fis IH]; intros acc flag w.
  - simpl. unfold ret. now rewrite andb_true_r.
  - cbn [forRange hasSourceFile existsb]. unfold isSourceFile at 1.
    rewrite filter_cons. destruct (decide (IsDir fi)) as [Hd|Hd].
    + cbn [forRange]. unfold bind, scanEntry.
      apply Is_true_true in Hd. rewrite Hd. simpl negb. simpl andb. simpl orb.
      destruct (strings.HasPrefix (Name fi) "_"); [apply IH|].
      destruct recursive; [|apply IH].
      unfold bind. destruct (descend acc _ _ w) as [w1 [acc1 e1]| |];
        try reflexivity.
      apply IH.
    + apply Is_true_false in Hd. unfold bind, scanEntry. rewrite Hd.
      destruct (strings.HasPrefix (Name fi) "_"); [apply IH|].
      destruct flag.
      * destruct (bool_decide (path.Ext (Name fi) ∈ exts)); simpl.
        -- rewrite IH. now destruct (forRange _ _ _ _) as [? [? ?]| |].
        -- apply IH.
      * simpl. rewrite IH. now destruct (forRange _ _ _ _) as [? [? ?]| |].
Qed.

Lemma scan_dirs_flag
    (descend : list string -> string -> string -> M (list string * option error))
    (base pat : string) (exts : gset string) (recursive : bool)
    (fis : list DirEntry) :
  forall acc flag w w' mid flag',
    forRange (scanEntry descend base pat exts recursive)
             (filter IsDir fis) (acc, flag) w = Done w' (mid, flag') ->
    flag' = flag.
Proof.
  induction fis as [|fi fis IH]; intros acc flag w w' mid flag'.
  - simpl. unfold ret. now intros [= _ _ ->].
  - rewrite filter_cons. destruct (decide (IsDir fi)) as [Hd|Hd]; [|apply IH].
    cbn [forRange]. unfold bind, scanEntry.
    apply Is_true_true in Hd. rewrite Hd.
    destruct (strings.HasPrefix (Name fi) "_"); [apply IH|].
    destruct recursive; [|apply IH].
    unfold bind. destruct (descend acc _ _ w) as [w1 [acc1 e1]| |];
      try discriminate.
    apply IH.
Qed.

(** Without recursion the scan leaves the list and the world alone. *)
Lemma scan_flat
    (descend : list string -> string -> string -> M (list string * option error))
    (base pat : string) (exts : gset string) (fis : list DirEntry) :
  forall acc flag w,
    forRange (scanEntry descend base pat exts false) (filter IsDir fis)
             (acc, flag) w = Done w (acc, flag).
Proof.
  induction fis as [|fi fis IH]; intros acc flag w; [reflexivity|].
  rewrite filter_cons. destruct (decide (IsDir fi)) as [Hd|Hd]; [|apply IH].
  cbn [forRange]. unfold bind, scanEntry.
  apply Is_true_true in Hd. rewrite Hd.
  destruct (strings.HasPrefix (Name fi) "_"); apply IH.
Qed.

(** ** No panic, and the world is only logged to *)

Lemma safe_bind {A B} (m : M A) (k : A -> M B) (w : World) :
  safe w (m w) ->
  (forall a w', extends w w' -> safe w' (k a w')) ->
  safe w (bind m k w).
Proof.
  unfold bind. destruct (m w) as [w1 a| |]; simpl; try tauto.
  intros E Hk. specialize (Hk a w1 E).
  destruct (k a w1); simpl in *; try tauto.
  eapply extends_trans; eassumption.
Qed.

Lemma safe_ret {A} (a : A) (w : World) : safe w (ret a w).
Proof. simpl. apply extends_refl. Qed.

Lemma forRange_safe {A S} (body : A -> S -> M S) (l : list A) :
  (forall x s w, safe w (body x s w)) ->
  forall s w, safe w (forRange body l s w).
Proof.
  intros Hb. induction l as [|x l IH]; intros s w; simpl.
  - apply extends_refl.
  - apply safe_bind; [apply Hb | intros; apply IH].
Qed.

Lemma doListPkgs_safe (fuel : nat) :
  forall acc base pat exts recursive w,
    safe w (doListPkgs fuel acc base pat exts recursive w).
Proof.
  induction fuel as [|fuel IH]; intros; [exact I|].
  rewrite doListPkgs_S.
  destruct (fs.readDir (w_root w) (w_cwd w) pat) as [fis [e|]];
    [apply extends_log|].
  pose proof (forRange_safe
                (scanEntry (fun a b s => doListPkgs fuel a b s exts true)
                           base pat exts recursive) fis) as Hs.
  specialize (fun H => Hs H (acc, true) (logEvent (EvReadDir pat) w)).
  destruct (forRange _ fis _ _) as [w' [mid f]| |]; simpl in *.
  - eapply extends_trans; [apply extends_log | apply Hs].
    intros fi [a f0] w0. unfold scanEntry.
    destruct (strings.HasPrefix (Name fi) "_"); [apply safe_ret|].
    destruct (IsDir fi).
    + destruct recursive; [|apply safe_ret].
      apply safe_bind; [apply IH|]. intros [a' e'] w1 _. apply safe_ret.
    + destruct f0; [destruct (bool_decide _)|]; apply safe_ret.
  - apply Hs. intros fi [a f0] w0. unfold scanEntry.
    destruct (strings.HasPrefix (Name fi) "_"); [apply safe_ret|].
    destruct (IsDir fi).
    + destruct recursive; [|apply safe_ret].
      apply safe_bind; [apply IH|]. intros [a' e'] w1 _. apply safe_ret.
    + destruct f0; [destruct (bool_decide _)|]; apply safe_ret.
  - exact I.
Qed.

(** ** [listPkgs] and [List] *)

Lemma Abs_run (p : string) (w : World) :
  filepath.Abs p w = Done (absWorld p w) (absPure (w_cwd w) p).
Proof.
  unfold filepath.Abs, absWorld, absPure.
  destruct (filepath.IsAbs p); [reflexivity|].
  unfold bind, os.Getwd. simpl. now destruct (w_cwd w).
Qed.

Lemma absWorld_extends (p : string) (w : World) : extends w (absWorld p w).
Proof. unfold absWorld. destruct (filepath.IsAbs p); auto with world. Qed.

Lemma absWorld_cwd (p : string) (w : World) : w_cwd (absWorld p w) = w_cwd w.
Proof. apply extends_cwd, absWorld_extends. Qed.

Lemma absWorld_root (p : string) (w : World) : w_root (absWorld p w) = w_root w.
Proof. apply extends_root, absWorld_extends. Qed.

(** [listPkgs] by cases: a literal import path, a pattern outside the
    module, a directory to scan. *)
Lemma listPkgs_run (fuel : nat) (conf : option Config) (acc : list string)
    (pat modRoot : string) (w : World) :
  listPkgs fuel conf acc pat modRoot w
  = if isFsPattern (stripMulti pat) then
      if escapes (w_cwd w) modRoot (stripMulti pat) then
        Done (absWorld (stripMulti pat) w)
             ([], Some (fmt.Errorf_outside (stripMulti pat)))
      else
        match conf with
        | Some c =>
            doListPkgs fuel acc
              (path.Join (ModPath c)
                         (relOf (w_cwd w) modRoot (stripMulti pat)))
              (stripMulti pat) (extsOf c) (strings.HasSuffix pat multi)
              (absWorld (stripMulti pat) w)
        | None => Panic "invalid memory address or nil pointer dereference"
        end
    else Done w (acc ++ [stripMulti pat], None).
Proof.
  unfold listPkgs, isFsPattern, escapes, relOf.
  destruct (strings.HasPrefix (stripMulti pat) "."
            || strings.HasPrefix (stripMulti pat) "/"); [|reflexivity].
  rewrite (bind_Done _ _ _ _ _ (Abs_run _ _)).
  destruct (absPure (w_cwd w) (stripMulti pat)) as [patAbs err1]. cbn [fst].
  destruct (filepath.Rel modRoot patAbs) as [patRel err2]. cbn [fst].
  destruct (bool_decide (err1 ≠ None) || bool_decide (err2 ≠ None)
            || strings.HasPrefix patRel ".."); [reflexivity|].
  destruct conf as [c|]; reflexivity.
Qed.

Lemma listPkgs_safe (fuel : nat) (c : Config) (acc : list string)
    (pat modRoot : string) (w : World) :
  safe w (listPkgs fuel (Some c) acc pat modRoot w).
Proof.
  rewrite listPkgs_run.
  destruct (isFsPattern _); [|apply extends_refl].
  destruct (escapes _ _ _); [apply absWorld_extends|].
  pose proof (doListPkgs_safe fuel acc
                (path.Join (ModPath c) (relOf (w_cwd w) modRoot (stripMulti pat)))
                (stripMulti pat) (extsOf c) (strings.HasSuffix pat multi)
                (absWorld (stripMulti pat) w)) as H.
  destruct (doListPkgs _ _ _ _ _ _ _); simpl in *; try tauto.
  eapply extends_trans; [apply absWorld_extends | exact H].
Qed.

Lemma listLoop_safe (fuel : nat) (c : Config) (modRoot : string)
    (pattern : list string) :
  forall acc w, safe w (listLoop fuel (Some c) modRoot pattern acc w).
Proof.
  induction pattern as [|pat rest IH]; intros acc w; simpl.
  - apply extends_refl.
  - apply safe_bind; [apply listPkgs_safe|].
    intros [acc' [e|]] w' _; [apply safe_ret | apply IH].
Qed.

Lemma List_unfold (fuel : nat) (conf : option Config) (pattern : list string)
    (w : World) :
  List fuel conf pattern w
  = listLoop fuel (Some (confOf conf)) (modRootOf conf w) pattern []
             (absWorld (ModRoot (confOf conf)) w).
Proof.
  unfold List, modRootOf. destruct conf as [c|]; simpl confOf.
  - unfold deref. rewrite (bind_Done _ _ w w c) by reflexivity.
    rewrite (bind_Done _ _ _ _ _ (Abs_run _ _)).
    now destruct (absPure (w_cwd w) (ModRoot c)).
  - unfold deref. rewrite (bind_Done _ _ w w new_Config) by reflexivity.
    rewrite (bind_Done _ _ _ _ _ (Abs_run _ _)).
    now destruct (absPure (w_cwd w) (ModRoot new_Config)).
Qed.

Lemma List_safe (fuel : nat) (conf : option Config) (pattern : list string)
    (w : World) :
  safe w (List fuel conf pattern w).
Proof.
  rewrite List_unfold.
  pose proof (listLoop_safe fuel (confOf conf) (modRootOf conf w) pattern []
                (absWorld (ModRoot (confOf conf)) w)) as H.
  destruct (listLoop _ _ _ _ _ _); simpl in *; try tauto.
  eapply extends_trans; [apply absWorld_extends | exact H].
Qed.

(** The loop of [List] over a list of patterns that ends without error
    goes on with the patterns that follow. *)
Lemma listLoop_app (fuel : nat) (conf : option Config) (modRoot : string)
    (pre rest : list string) :
  forall acc0 w w1 acc,
    listLoop fuel conf modRoot pre acc0 w = Done w1 (acc, None) ->
    listLoop fuel conf modRoot (pre ++ rest) acc0 w
    = listLoop fuel conf modRoot rest acc w1.
Proof.
  induction pre as [|pat pre IH]; intros acc0 w w1 acc; simpl.
  - unfold ret. now intros [= -> ->].
  - unfold bind. destruct (listPkgs fuel conf acc0 pat modRoot w)
      as [w' [acc' [e|]]| |]; try discriminate.
    apply IH.
Qed.

Lemma List_app (fuel : nat) (conf : option Config) (pre rest : list string)
    (w w1 : World) (acc : list string) :
  List fuel conf pre w = Done w1 (acc, None) ->
  List fuel conf (pre ++ rest) w
  = listLoop fuel (Some (confOf conf)) (modRootOf conf w) rest acc w1.
Proof.
  rewrite !List_unfold. apply listLoop_app.
Qed.

Lemma List_extends (fuel : nat) (conf : option Config) (pattern : list string)
    (w w' : World) (r : list string * option error) :
  List fuel conf pattern w = Done w' r -> extends w w'.
Proof. intros H. pose proof (List_safe fuel conf pattern w) as S. now rewrite H in S. Qed.

Lemma listPkgs_mono1 (fuel : nat) (conf : option Config) (acc : list string)
    (pat modRoot : string) (w w' : World) (r : list string * option error) :
  listPkgs fuel conf acc pat modRoot w = Done w' r ->
  listPkgs (S fuel) conf acc pat modRoot w = Done w' r.
Proof.
  rewrite !listPkgs_run.
  destruct (isFsPattern _); [|auto]. destruct (escapes _ _ _); [auto|].
  destruct conf as [c|]; [apply doListPkgs_mono1 | auto].
Qed.

Lemma listLoop_mono1 (fuel : nat) (conf : option Config) (modRoot : string)
    (pattern : list string) :
  forall acc w w' r,
    listLoop fuel conf modRoot pattern acc w = Done w' r ->
    listLoop (S fuel) conf modRoot pattern acc w = Done w' r.
Proof.
  induction pattern as [|pat rest IH]; intros acc w w' r; simpl; [auto|].
  unfold bind.
  destruct (listPkgs fuel conf acc pat modRoot w) as [w1 [acc1 e1]| |] eqn:E;
    try discriminate.
  rewrite (listPkgs_mono1 _ _ _ _ _ _ _ _ E).
  destruct e1; [auto | apply IH].
Qed.

Lemma List_mono (k fuel : nat) (conf : option Config) (pattern : list string)
    (w w' : World) (r : list string * option error) :
  List fuel conf pattern w = Done w' r ->
  List (fuel + k) conf pattern w = Done w' r.
Proof.
  rewrite !List_unfold. intros H. induction k as [|k IH].
  - now rewrite Nat.add_0_r.
  - rewrite Nat.add_succ_r. now apply listLoop_mono1.
Qed.

Lemma listLoop_single (fuel : nat) (conf : option Config)
    (modRoot pat : string) (acc : list string) (w : World) :
  listLoop fuel conf modRoot [pat] acc w = listPkgs fuel conf acc pat modRoot w.
Proof.
  simpl. unfold bind.
  now destruct (listPkgs fuel conf acc pat modRoot w) as [w1 [acc1 [e|]]| |].
Qed.

Lemma resolve_wf (root : Node) (cwd : option (list string)) (pat : string)
    (n : Node) :
  wfNode root = true -> fs.resolve root cwd pat = inr n ->
  wfNode n = true /\ height n <= height root.
Proof.
  intros Hwf. unfold fs.resolve.
  destruct (String.eqb pat ""); [discriminate|].
  destruct (if strings.HasPrefix pat "/" then Some [] else cwd);
    [|discriminate].
  destruct (fs.walk _ _ _) as [|loc]; [discriminate|].
  destruct (fs.nodeAt root loc) as [x|] eqn:Hn; [|discriminate].
  intros [= <-]. eapply nodeAt_wf; eassumption.
Qed.

(** On a well-formed tree a scan with fuel above the height of the tree
    returns, without error when the directory can be read. *)
Lemma doListPkgs_returns (fuel : nat) (acc : list string) (base pat : string)
    (exts : gset string) (recursive : bool) (w : World) :
  wfNode (w_root w) = true -> height (w_root w) <= fuel ->
  exists w' r,
    doListPkgs (S fuel) acc base pat exts recursive w
    = Done w' (r, snd (fs.readDir (w_root w) (w_cwd w) pat))
    /\ extends w w'.
Proof.
  intros Hwf Hh. apply doListPkgs_total; [assumption|].
  intros n Hn. apply (resolve_wf _ _ _ _ Hwf) in Hn as [_ Hn]. lia.
Qed.

(* ================================================================== *)
(** * The claims *)

(** ** C1: the end-to-end listing *)

(** C1 (as stated, refuted).  In the module [/m] with the files
    [/m/a/x.go] and [/m/b/sub/y.go], listing [./...] from the module root
    never returns [["example.com/m"; "example.com/m/b/sub"]], whatever
    the fuel. *)
Lemma C1_listing_is_not_root_and_sub :
  ~ exists fuel w',
      List fuel Sample.conf ["./..."] Sample.world
      = Done w' (["example.com/m"; "example.com/m/b/sub"], None).
Proof.
  intros (fuel & w' & H).
  destruct fuel as [|[|[|fuel]]]; vm_compute in H; discriminate H.
Qed.

(** C1 (amended).  In that module, listing [./...] from the module root
    returns [["example.com/m/a"; "example.com/m/b/sub"]] with any fuel
    from 3 on: the directories that hold a source file themselves, each
    after its subdirectories; the root and [b], which hold none, are left
    out.  The system calls are one [Getwd] and one [ReadDir] per
    directory. *)
Theorem C1_listing_of_sample_module :
  forall k,
    List (3 + k) Sample.conf ["./..."] Sample.world
    = Done (mkWorld Sample.tree (Some ["m"]) Sample.heap
                    [EvGetwd; EvReadDir "."; EvReadDir "./a";
                     EvReadDir "./b"; EvReadDir "./b/sub"])
           (["example.com/m/a"; "example.com/m/b/sub"], None).
Proof.
  intros k. apply List_mono. vm_compute. reflexivity.
Qed.

(** ** C2: a directory is listed for its own source files only *)

(** A scan without recursion reads the directory once and appends the
    base import path when the directory holds a source file. *)
Lemma doListPkgs_flat (fuel : nat) (acc : list string) (base pat : string)
    (exts : gset string) (w : World) (fis : list DirEntry) :
  fs.readDir (w_root w) (w_cwd w) pat = (fis, None) ->
  doListPkgs (S fuel) acc base pat exts false w
  = Done (logEvent (EvReadDir pat) w)
         (if hasSourceFile exts fis then acc ++ [base] else acc, None).
Proof.
  intros Hrd. rewrite doListPkgs_S, Hrd, scan_split, scan_flat.
  simpl. now destruct (hasSourceFile exts fis).
Qed.

(** C2.  (1) A scan of a directory that can be read returns without
    error; its list is the list [mid] left by the descent into the
    subdirectories, followed by the base import path exactly when the
    directory itself holds a source file: a file, not a directory, whose
    name does not start with [_] and whose extension is recognized.
    Without recursion [mid] is the list the scan started from.
    (2) So for a non-recursive pattern inside the module whose directory
    can be read, [List] adds the import path of the directory when the
    directory holds a source file, and nothing when it holds none,
    whatever its subdirectories hold. *)
Theorem C2_base_path_iff_direct_source_file :
  (forall fuel w acc base pat exts recursive fis,
      (recursive = true ->
         wfNode (w_root w) = true /\ height (w_root w) <= fuel) ->
      fs.readDir (w_root w) (w_cwd w) pat = (fis, None) ->
      exists w' mid,
        forRange (scanEntry (fun a b s => doListPkgs fuel a b s exts true)
                            base pat exts recursive)
                 (filter IsDir fis) (acc, true) (logEvent (EvReadDir pat) w)
        = Done w' (mid, true)
        /\ doListPkgs (S fuel) acc base pat exts recursive w
           = Done w' (if hasSourceFile exts fis then mid ++ [base] else mid,
                      None)
        /\ (recursive = false ->
              mid = acc /\ w' = logEvent (EvReadDir pat) w))
  /\ (forall fuel conf pre pat w w1 acc fis,
        List (S fuel) conf pre w = Done w1 (acc, None) ->
        strings.HasSuffix pat multi = false ->
        isFsPattern pat = true ->
        escapes (w_cwd w) (modRootOf conf w) pat = false ->
        fs.readDir (w_root w) (w_cwd w) pat = (fis, None) ->
        List (S fuel) conf (pre ++ [pat]) w
        = Done (logEvent (EvReadDir pat) (absWorld pat w1))
               (if hasSourceFile (extsOf (confOf conf)) fis
                then acc ++ [path.Join (ModPath (confOf conf))
                                       (relOf (w_cwd w) (modRootOf conf w) pat)]
                else acc,
                None)).
Proof.
  split.
  - intros fuel w acc base pat exts recursive fis Hrec Hrd.
    destruct recursive.
    + destruct Hrec as [Hwf Hh]; [reflexivity|].
      destruct (doListPkgs_returns fuel acc base pat exts true w Hwf Hh)
        as (w' & r & Hrun & _).
      rewrite doListPkgs_S, Hrd, scan_split in Hrun.
      destruct (forRange _ (filter IsDir fis) _ _) as [w2 [mid f]| |] eqn:Hloop;
        try discriminate.
      apply scan_dirs_flag in Hloop as Hf. subst f.
      exists w2, mid. split; [reflexivity|]. split; [|discriminate].
      rewrite doListPkgs_S, Hrd, scan_split, Hloop.
      simpl. now destruct (hasSourceFile exts fis).
    + exists (logEvent (EvReadDir pat) w), acc.
      split; [apply scan_flat|]. split; [|auto].
      now apply doListPkgs_flat.
  - intros fuel conf pre pat w w1 acc fis Hpre Hsuf Hfs Hesc Hrd.
    pose proof (List_extends _ _ _ _ _ _ Hpre) as E.
    rewrite (List_app _ _ _ _ _ _ _ Hpre), listLoop_single.
    rewrite listPkgs_run, (stripMulti_plain _ Hsuf), Hfs.
    rewrite (extends_cwd _ _ E), Hesc, Hsuf.
    apply doListPkgs_flat.
    now rewrite absWorld_root, absWorld_cwd, (extends_cwd _ _ E),
      (extends_root _ _ E).
Qed.

Lemma C2_base_path_iff_direct_source_file_witness :
  (exists w' mid,
     forRange (scanEntry (fun a b s => doListPkgs 4 a b s {[ ".go" ]} true)
                         "example.com/m" "/m" {[ ".go" ]} true)
              (filter IsDir [mkDirEntry "a" true; mkDirEntry "b" true])
              ([], true) (logEvent (EvReadDir "/m") Sample.world)
     = Done w' (mid, true)
     /\ doListPkgs 5 [] "example.com/m" "/m" {[ ".go" ]} true Sample.world
        = Done w' (if hasSourceFile {[ ".go" ]}
                        [mkDirEntry "a" true; mkDirEntry "b" true]
                   then mid ++ ["example.com/m"] else mid, None)
     /\ (true = false ->
           mid = [] /\ w' = logEvent (EvReadDir "/m") Sample.world))
  /\ List 1 Sample.conf (["fmt"] ++ ["./b"]) Sample.world
     = Done (logEvent (EvReadDir "./b") (absWorld "./b" Sample.world))
            (if hasSourceFile (extsOf (confOf Sample.conf))
                              [mkDirEntry "sub" true]
             then ["fmt"] ++ [path.Join (ModPath (confOf Sample.conf))
                                (relOf (w_cwd Sample.world)
                                   (modRootOf Sample.conf Sample.world) "./b")]
             else ["fmt"],
             None).
Proof.
  destruct C2_base_path_iff_direct_source_file as [Hscan Hlist].
  split.
  - apply (Hscan 4 Sample.world [] "example.com/m" "/m" {[ ".go" ]} true
                 [mkDirEntry "a" true; mkDirEntry "b" true]).
    + intros _. split; [reflexivity | vm_compute; lia].
    + reflexivity.
  - apply (Hlist 0 Sample.conf ["fmt"] "./b" Sample.world Sample.world
                 ["fmt"] [mkDirEntry "sub" true]); reflexivity.
Defined.

(** ** C8: a directory that cannot be read *)

(** C8.  (1) When the patterns before it were listed without error, a
    non-recursive file-system pattern inside the module whose directory
    cannot be read makes [List] return that error with the list
    accumulated so far; the patterns after it are not looked at.
    (2) In a recursive scan, a subdirectory that cannot be read leaves the
    list and the flag of the scan as they were.  (3) A recursive scan of a
    directory that can be read returns no error, whatever happens below
    it. *)
Theorem C8_read_failure_aborts_List_but_not_the_descent :
  (forall fuel conf pre pat post w w1 acc fis e,
      List (S fuel) conf pre w = Done w1 (acc, None) ->
      strings.HasSuffix pat multi = false ->
      isFsPattern pat = true ->
      escapes (w_cwd w) (modRootOf conf w) pat = false ->
      fs.readDir (w_root w) (w_cwd w) pat = (fis, Some e) ->
      List (S fuel) conf (pre ++ pat :: post) w
      = Done (logEvent (EvReadDir pat) (absWorld pat w1)) (acc, Some e))
  /\ (forall fuel base pat exts fi acc flag w fis e,
        IsDir fi = true ->
        strings.HasPrefix (Name fi) "_" = false ->
        fs.readDir (w_root w) (w_cwd w) (pat +:+ "/" +:+ Name fi)
        = (fis, Some e) ->
        scanEntry (fun a b s => doListPkgs (S fuel) a b s exts true)
                  base pat exts true fi (acc, flag) w
        = Done (logEvent (EvReadDir (pat +:+ "/" +:+ Name fi)) w) (acc, flag))
  /\ (forall fuel w acc base pat exts fis,
        wfNode (w_root w) = true -> height (w_root w) <= fuel ->
        fs.readDir (w_root w) (w_cwd w) pat = (fis, None) ->
        exists w' r,
          doListPkgs (S fuel) acc base pat exts true w = Done w' (r, None)).
Proof.
  repeat split.
  - intros fuel conf pre pat post w w1 acc fis e Hpre Hsuf Hfs Hesc Hrd.
    pose proof (List_extends _ _ _ _ _ _ Hpre) as E.
    rewrite (List_app _ _ _ _ _ _ _ Hpre). cbn [listLoop].
    unfold bind. rewrite listPkgs_run, (stripMulti_plain _ Hsuf), Hfs.
    rewrite (extends_cwd _ _ E), Hesc, Hsuf.
    rewrite doListPkgs_S, absWorld_root, absWorld_cwd.
    rewrite (extends_cwd _ _ E), (extends_root _ _ E), Hrd. reflexivity.
  - intros fuel base pat exts fi acc flag w fis e Hd Hu Hrd.
    unfold scanEntry. rewrite Hu, Hd. unfold bind.
    rewrite doListPkgs_S, Hrd. reflexivity.
  - intros fuel w acc base pat exts fis Hwf Hh Hrd.
    destruct (doListPkgs_returns fuel acc base pat exts true w Hwf Hh)
      as (w' & r & Hrun & _).
    rewrite Hrd in Hrun. eauto.
Qed.

Lemma C8_read_failure_aborts_List_but_not_the_descent_witness :
  List 3 Sample.conf (["x/y"] ++ "./vendor" :: ["./a"]) Sample.lockedWorld
  = Done (logEvent (EvReadDir "./vendor")
            (absWorld "./vendor" Sample.lockedWorld))
         (["x/y"], Some (PathError "open" "./vendor" EACCES))
  /\ scanEntry (fun a b s => doListPkgs 3 a b s {[ ".go" ]} true)
               "example.com/m" "/m" {[ ".go" ]} true
               (mkDirEntry "vendor" true) (["example.com/m/a"], true)
               Sample.lockedWorld
     = Done (logEvent (EvReadDir "/m/vendor") Sample.lockedWorld)
            (["example.com/m/a"], true)
  /\ exists w' r,
       doListPkgs 4 [] "example.com/m" "/m" {[ ".go" ]} true Sample.lockedWorld
       = Done w' (r, None).
Proof.
  destruct C8_read_failure_aborts_List_but_not_the_descent as (Ha & Hb & Hc).
  split; [|split].
  - apply (Ha 2 Sample.conf ["x/y"] "./vendor" ["./a"] Sample.lockedWorld
              Sample.lockedWorld ["x/y"] []
              (PathError "open" "./vendor" EACCES)); reflexivity.
  - apply (Hb 2 "example.com/m" "/m" {[ ".go" ]} (mkDirEntry "vendor" true)
              ["example.com/m/a"] true Sample.lockedWorld []
              (PathError "open" "/m/vendor" EACCES));
      reflexivity.
  - apply (Hc 3 Sample.lockedWorld [] "example.com/m" "/m" {[ ".go" ]}
              [mkDirEntry "a" true; mkDirEntry "vendor" true]);
      [reflexivity | vm_compute; lia | reflexivity].
Defined.

(** ** C5: a pattern outside the module *)

(** C5 (as stated, refuted).  With the patterns [foo] and [../x] in the
    sample module, [List] does not return the path [foo] accumulated from
    the first pattern alongside the error of the second. *)
Lemma C5_accumulated_paths_are_not_returned :
  ~ exists fuel w' e,
      List fuel Sample.conf ["foo"; "../x"] Sample.world
      = Done w' (["foo"], Some e).
Proof.
  intros (fuel & w' & e & H). vm_compute in H. discriminate H.
Qed.

(** C5 (amended).  When the patterns before it were listed without error,
    a file-system pattern for which absolutization fails, or no relative
    path from the module root exists, or that path starts with [..],
    makes [List] return the empty list and the error that names the
    pattern (after the recursive marker is stripped) as outside the
    available modules.  The patterns after it are not looked at, and the
    only system call made for it is the [Getwd] of absolutization. *)
Theorem C5_pattern_outside_module_aborts_with_empty_list :
  forall fuel conf pre pat post w w1 acc,
    List fuel conf pre w = Done w1 (acc, None) ->
    isFsPattern (stripMulti pat) = true ->
    escapes (w_cwd w) (modRootOf conf w) (stripMulti pat) = true ->
    List fuel conf (pre ++ pat :: post) w
    = Done (absWorld (stripMulti pat) w1)
           ([], Some (fmt.Errorf_outside (stripMulti pat))).
Proof.
  intros fuel conf pre pat post w w1 acc Hpre Hfs Hesc.
  pose proof (List_extends _ _ _ _ _ _ Hpre) as E.
  rewrite (List_app _ _ _ _ _ _ _ Hpre). cbn [listLoop].
  unfold bind. rewrite listPkgs_run, Hfs, (extends_cwd _ _ E), Hesc.
  reflexivity.
Qed.

Lemma C5_pattern_outside_module_aborts_with_empty_list_witness :
  List 0 Sample.conf (["foo"] ++ "../x/..." :: ["bar"]) Sample.world
  = Done (absWorld (stripMulti "../x/...") Sample.world)
         ([], Some (fmt.Errorf_outside (stripMulti "../x/..."))).
Proof.
  apply (C5_pattern_outside_module_aborts_with_empty_list
           0 Sample.conf ["foo"] "../x/..." ["bar"] Sample.world
           Sample.world ["foo"]); reflexivity.
Defined.

(** ** C6: literal import paths *)

(** C6 (as stated, refuted).  The pattern [foo/...] starts with neither
    [.] nor [/], and [List] does not return it unchanged. *)
Lemma C6_marked_import_path_is_not_unchanged :
  ~ exists fuel w',
      List fuel Sample.conf ["foo/..."] Sample.world
      = Done w' (["foo/..."], None).
Proof.
  intros (fuel & w' & H). vm_compute in H. discriminate H.
Qed.

(** C6 (amended).  For a pattern that starts with neither [.] nor [/],
    [List] appends the pattern without its recursive marker, which is the
    pattern itself when it does not end in the marker, and goes on with
    the following patterns in the same world: no system call is made for
    it. *)
Theorem C6_literal_import_path_is_appended_stripped :
  forall fuel conf pre pat post w w1 acc,
    isFsPattern pat = false ->
    List fuel conf pre w = Done w1 (acc, None) ->
    let literal :=
      if strings.HasSuffix pat multi
      then strings.slice pat 0 (String.length pat - String.length multi)
      else pat in
    List fuel conf (pre ++ [pat]) w = Done w1 (acc ++ [literal], None)
    /\ List fuel conf (pre ++ pat :: post) w
       = listLoop fuel (Some (confOf conf)) (modRootOf conf w) post
                  (acc ++ [literal]) w1.
Proof.
  intros fuel conf pre pat post w w1 acc Hbare Hpre literal.
  assert (Hne : pat <> multi) by (intros ->; discriminate Hbare).
  assert (Hstrip : isFsPattern (stripMulti pat) = false).
  { unfold isFsPattern in *. now rewrite !(stripMulti_first _ _ Hne). }
  assert (Hstep : forall rest,
             List fuel conf (pre ++ pat :: rest) w
             = listLoop fuel (Some (confOf conf)) (modRootOf conf w) rest
                        (acc ++ [literal]) w1).
  { intros rest. rewrite (List_app _ _ _ _ _ _ _ Hpre). cbn [listLoop].
    unfold bind. rewrite listPkgs_run, Hstrip.
    now rewrite (stripMulti_slice _ Hne). }
  split; apply Hstep.
Qed.

Lemma C6_literal_import_path_is_appended_stripped_witness :
  List 0 Sample.conf (["fmt"] ++ ["a/b/..."]) Sample.world
  = Done Sample.world (["fmt"] ++ ["a/b"], None)
  /\ List 0 Sample.conf (["fmt"] ++ "a/b/..." :: ["os"]) Sample.world
     = listLoop 0 (Some (confOf Sample.conf))
                (modRootOf Sample.conf Sample.world) ["os"]
                (["fmt"] ++ ["a/b"]) Sample.world.
Proof.
  apply (C6_literal_import_path_is_appended_stripped
           0 Sample.conf ["fmt"] "a/b/..." ["os"] Sample.world
           Sample.world ["fmt"]); reflexivity.
Defined.

(** ** C7: the recursive marker alone *)

(** C7 (as stated, refuted).  In the sample module, whose root is [/m],
    listing [/...] does not give what listing the module root
    recursively gives. *)
Lemma C7_marker_alone_is_not_the_module_root :
  ~ forall fuel,
      resultOf (List fuel Sample.conf ["/..."] Sample.world)
      = resultOf (List fuel Sample.conf ["/m/..."] Sample.world).
Proof.
  intros H. specialize (H 3). vm_compute in H. discriminate H.
Qed.

(** C7 (amended).  The pattern [/...] denotes the root of the file system:
    when the module root is not [/], [List] returns the empty list and the
    error that names [/] as outside the available modules, without
    reading a directory; when the module root is [/], it scans [/]
    recursively. *)
Theorem C7_marker_alone_denotes_the_file_system_root :
  forall fuel conf w,
    (filepath.Clean (modRootOf conf w) <> "/" ->
       List fuel conf ["/..."] w
       = Done (absWorld (ModRoot (confOf conf)) w)
              ([], Some (fmt.Errorf_outside "/")))
    /\ (filepath.Clean (modRootOf conf w) = "/" ->
         List fuel conf ["/..."] w
         = doListPkgs fuel [] (path.Join (ModPath (confOf conf)) ".") "/"
                      (extsOf (confOf conf)) true
                      (absWorld (ModRoot (confOf conf)) w)).
Proof.
  intros fuel conf w.
  destruct (Rel_to_root (modRootOf conf w)) as [Hin Hout].
  rewrite List_unfold, listLoop_single, listPkgs_run.
  change (stripMulti "/...") with "/".
  change (isFsPattern "/") with true. cbv iota.
  unfold escapes, relOf. change (absPure _ "/") with ("/", @None error).
  cbn [fst]. unfold absWorld at 1 3. change (filepath.IsAbs "/") with true.
  cbv iota. split; intros H.
  - specialize (Hout H).
    destruct (filepath.Rel (modRootOf conf w) "/") as [rel [e|]];
      [reflexivity|]. simpl in Hout.
    destruct Hout as [Hout|Hout]; [congruence|]. now rewrite Hout.
  - rewrite (Hin H). reflexivity.
Qed.

Lemma C7_marker_alone_denotes_the_file_system_root_witness :
  List 3 Sample.conf ["/..."] Sample.world
  = Done (absWorld (ModRoot (confOf Sample.conf)) Sample.world)
         ([], Some (fmt.Errorf_outside "/"))
  /\ List 3 Sample.rootConf ["/..."] Sample.world
     = doListPkgs 3 [] (path.Join (ModPath (confOf Sample.rootConf)) ".") "/"
                  (extsOf (confOf Sample.rootConf)) true
                  (absWorld (ModRoot (confOf Sample.rootConf)) Sample.world).
Proof.
  split.
  - apply (proj1 (C7_marker_alone_denotes_the_file_system_root
                    3 Sample.conf Sample.world)).
    vm_compute. discriminate.
  - apply (proj2 (C7_marker_alone_denotes_the_file_system_root
                    3 Sample.rootConf Sample.world)).
    reflexivity.
Defined.

(** ** The importer *)

Section ImporterProperties.

Variable loadDeps :
  string -> list string -> Node -> Node * (gmap string string * option error).
Variable Reader : Type.
Variable NewReader : os.File -> option Reader * option error.
Variable Read :
  Reader -> ptr -> loc -> string -> Heap -> Heap * (ptr * option error).

(** A complete cached package is returned as it is, in the same world. *)
Lemma Import_hit (p : Importer) (pkgPath : string) (r : ptr) (w : World) :
  cached (w_heap w) (loaded p) pkgPath r ->
  Import NewReader Read (Some p) pkgPath w = Done w (r, None).
Proof.
  intros (Hm & l & o & -> & Ho & Hc).
  unfold Import, deref, bind, ret, mapLookup, types.Complete.
  now rewrite Hm, Ho, Hc.
Qed.

(** Where [Import] goes when the cache has no complete package. *)
Lemma Import_miss (p : Importer) (pkgPath : string) (w : World) :
  notCached (w_heap w) (loaded p) pkgPath ->
  Import NewReader Read (Some p) pkgPath w
  = match pkgs p !! pkgPath with
    | Some expfile => loadPkgExport NewReader Read (Some p) expfile pkgPath w
    | None => Done w (None, Some syscall.ENOENT)
    end.
Proof.
  unfold Import, deref, bind, ret, mapLookup, types.Complete.
  intros [Hm | (l & o & Hm & Ho & Hc)].
  - rewrite Hm. now destruct (pkgs p !! pkgPath).
  - rewrite Hm, Ho, Hc. now destruct (pkgs p !! pkgPath).
Qed.

(** The results of [loadPkgExport]: an open error, a reader error, or
    what [Read] returns on the heap, with the file closed. *)
Lemma loadPkgExport_Done (p : Importer) (expfile pkgPath : string)
    (w w' : World) (r : ptr) (err : option error) :
  loadPkgExport NewReader Read (Some p) expfile pkgPath w = Done w' (r, err) ->
  (exists e, err = Some (PathError "open" expfile e))
  \/ (exists f rd, NewReader f = (rd, err) /\ err <> None)
  \/ (exists rd,
        Read rd (fset p) (loaded p) pkgPath (w_heap w)
        = (w_heap w', (r, err))).
Proof.
  unfold loadPkgExport, bind, os.Open. cbn [logEvent w_root w_cwd].
  destruct (fs.resolve (w_root w) (w_cwd w) expfile) as [e|n].
  - unfold ret. intros [= _ _ <-]. left. eauto.
  - destruct (NewReader (os.mkFile expfile n)) as [[rd|] [e|]] eqn:Hnr;
      unfold ret, panic, os.Close; try discriminate.
    + intros [= _ _ <-]. right; left. exists (os.mkFile expfile n), (Some rd).
      split; [assumption | discriminate].
    + unfold deref, ret, run_Read. cbn [w_heap logEvent].
      destruct (Read rd (fset p) (loaded p) pkgPath (w_heap w))
        as [h' [r' e']] eqn:Hrd.
      intros [= <- <- <-]. right; right. now exists rd.
    + intros [= _ _ <-]. right; left. exists (os.mkFile expfile n), None.
      split; [assumption | discriminate].
Qed.

(** ** C3: the second [Import] of a path *)

Section ReadContract.

(** What the documentation of [gcexportdata.Read] promises: on
    success the resulting package is inserted into the imports map
    under the path, and it is complete. *)
Hypothesis Read_inserts :
  forall rd fset imports pkgPath h h' r,
    Read rd fset imports pkgPath h = (h', (r, None)) ->
    cached h' imports pkgPath r.



End ReadContract.

(** ** C4: an unknown import path *)

Section ReaderErrors.

(** The errors of the export-data reader are its own: never the bare
    [syscall.ENOENT]. *)
Hypothesis NewReader_error :
  forall f rd e, NewReader f = (rd, Some e) -> e <> syscall.ENOENT.
Hypothesis Read_error :
  forall rd fset imports pkgPath h h' r e,
    Read rd fset imports pkgPath h = (h', (r, Some e)) ->
    e <> syscall.ENOENT.

(** C4.  (1) For a path with no complete package in the cache and no
    entry in the artifact map, [Import] returns the nil package and
    the error [syscall.ENOENT], in the same world.  (2) For a path
    that has an entry in the artifact map, no error [Import] returns
    is that value: a failure to open the artifact is a [PathError],
    and the reader's errors are its own. *)
Theorem C4_unknown_path_is_ENOENT :
  (forall p pkgPath w,
      notCached (w_heap w) (loaded p) pkgPath ->
      pkgs p !! pkgPath = None ->
      Import NewReader Read (Some p) pkgPath w
      = Done w (None, Some syscall.ENOENT))
  /\ (forall p pkgPath expfile w w' r e,
        pkgs p !! pkgPath = Some expfile ->
        Import NewReader Read (Some p) pkgPath w = Done w' (r, Some e) ->
        e <> syscall.ENOENT).
Proof.
  split.
  - intros p pkgPath w Hn Hp. rewrite (Import_miss _ _ _ Hn). now rewrite Hp.
  - intros p pkgPath expfile w w' r e Hp H.
    assert (Hl : loadPkgExport NewReader Read (Some p) expfile pkgPath w
                 = Done w' (r, Some e)).
    { revert H. unfold Import, deref, bind, ret, mapLookup, types.Complete.
      rewrite Hp.
      destruct (mapAt (w_heap w) (loaded p) !! pkgPath) as [[l|]|];
        try discriminate; [|auto].
      destruct (h_pkgs (w_heap w) !! l) as [o|]; try discriminate.
      destruct (pkg_complete o); [discriminate | auto]. }
    apply loadPkgExport_Done in Hl
      as [[e0 He] | [(f & rd & Hnr & _) | (rd & Hrd)]].
    + injection He as ->. discriminate.
    + eapply NewReader_error; eassumption.
    + eapply Read_error; eassumption.
Qed.

End ReaderErrors.

(** ** C9 and C10: the importer [NewImporter] returns *)

(** [NewImporter] leaves the package objects alone, and the cache of
    the importer it returns maps [unsafe] to [types.Unsafe]. *)
Lemma NewImporter_Done (fuel : nat) (conf : option Config)
    (pattern : list string) (w w' : World) (p : Importer)
    (pkgPaths : list string) :
  NewImporter loadDeps fuel conf pattern w = Done w' (Some p, pkgPaths, None) ->
  h_pkgs (w_heap w') = h_pkgs (w_heap w)
  /\ mapAt (w_heap w') (loaded p) !! "unsafe" = Some types.Unsafe.
Proof.
  unfold NewImporter, bind.
  destruct (List fuel _ pattern w) as [w1 [paths [e|]]| |] eqn:HL;
    try discriminate.
  apply List_extends in HL. apply extends_heap in HL.
  replace (match conf with Some _ => conf | None => Some new_Config end)
    with (Some (confOf conf)) by now destruct conf.
  unfold getTempDir, deref, bind, ret, run_loadDeps.
  destruct (loadDeps _ paths (w_root w1)) as [root' [arts [e|]]];
    try discriminate.
  unfold token.NewFileSet, makeMap, mapStore, mapAt.
  destruct (Fset (confOf conf)), (Loaded (confOf conf));
    intros [= <- <- <-]; cbn; rewrite HL;
    (split; [reflexivity|]); rewrite lookup_insert_eq; cbn;
    apply lookup_insert_eq.
Qed.

Lemma NewImporter_no_panic (fuel : nat) (conf : option Config)
    (pattern : list string) (w : World) (msg : string) :
  NewImporter loadDeps fuel conf pattern w <> Panic msg.
Proof.
  unfold NewImporter, bind.
  pose proof (List_safe fuel (Some (confOf conf)) pattern w) as HS.
  replace (match conf with Some _ => conf | None => Some new_Config end)
    with (Some (confOf conf)) by now destruct conf.
  destruct (List fuel _ pattern w) as [w1 [paths [e|]]| |];
    simpl in HS; try tauto; try discriminate.
  unfold getTempDir, deref, bind, ret, run_loadDeps.
  destruct (loadDeps _ paths (w_root w1)) as [root' [arts [e|]]];
    try discriminate.
  destruct (Fset (confOf conf)), (Loaded (confOf conf)); discriminate.
Qed.

(** C9.  When the [go/types] package is initialised, [Import] of
    [unsafe] on an importer that [NewImporter] returned gives
    [types.Unsafe] without error and leaves the world as it is: no file
    is opened.  The same holds with the artifact map of the importer
    emptied. *)
Theorem C9_Import_unsafe_succeeds :
  forall fuel conf pattern w w' p pkgPaths,
    unsafeInitialised (w_heap w) ->
    NewImporter loadDeps fuel conf pattern w
    = Done w' (Some p, pkgPaths, None) ->
    Import NewReader Read (Some p) "unsafe" w'
    = Done w' (types.Unsafe, None)
    /\ Import NewReader Read (Some (mkImporter ∅ (loaded p) (fset p)))
              "unsafe" w'
       = Done w' (types.Unsafe, None).
Proof.
  intros fuel conf pattern w w' p pkgPaths (o & Ho & Hc) H.
  apply NewImporter_Done in H as [Hpk Hm].
  assert (Hcached : cached (w_heap w') (loaded p) "unsafe" types.Unsafe).
  { split; [assumption|]. exists 1%positive, o. rewrite Hpk. auto. }
  split; apply Import_hit; assumption.
Qed.

(** C10.  With a nil configuration, [List] and [NewImporter] run as
    with a fresh zero configuration, and neither panics. *)
Theorem C10_nil_config_is_zero_config :
  forall fuel pattern w,
    List fuel None pattern w = List fuel (Some new_Config) pattern w
    /\ NewImporter loadDeps fuel None pattern w
       = NewImporter loadDeps fuel (Some new_Config) pattern w
    /\ (forall msg, List fuel None pattern w <> Panic msg)
    /\ (forall msg, NewImporter loadDeps fuel None pattern w <> Panic msg).
Proof.
  intros fuel pattern w. repeat split.
  - intros msg H. pose proof (List_safe fuel None pattern w) as HS.
    now rewrite H in HS.
  - intros msg. apply NewImporter_no_panic.
Qed.

End ImporterProperties.


Lemma Sample_reader_errors :
  (forall f rd e, Sample.NewReader f = (rd, Some e) -> e <> syscall.ENOENT)
  /\ (forall rd fset imports pkgPath h h' r e,
        Sample.Read rd fset imports pkgPath h = (h', (r, Some e)) ->
        e <> syscall.ENOENT).
Proof.
  split.
  - intros f rd e. unfold Sample.NewReader.
    destruct (os.f_node f); intros [= <- <-]; discriminate.
  - intros rd fset imports pkgPath h h' r e. unfold Sample.Read.
    destruct (String.eqb rd ""); intros [= <- <- <-]; discriminate.
Qed.


Lemma C4_unknown_path_is_ENOENT_witness :
  Import Sample.NewReader Sample.Read (Some Sample.importer) "example.com/m/b"
         Sample.world
  = Done Sample.world (None, Some syscall.ENOENT)
  /\ PathError "open" "/m/a/x.go" ENOENT <> syscall.ENOENT.
Proof.
  destruct (C4_unknown_path_is_ENOENT
              string Sample.NewReader Sample.Read
              (proj1 Sample_reader_errors) (proj2 Sample_reader_errors))
    as [Hunknown Hknown].
  split.
  - apply Hunknown; [left|]; reflexivity.
  - apply (Hknown Sample.importer "example.com/m/a" "/m/a/x.go"
                  (withFiles (Dir true []) None Sample.world)
                  (logEvent (EvOpen "/m/a/x.go")
                     (withFiles (Dir true []) None Sample.world))
                  None);
      reflexivity.
Defined.

Lemma C9_Import_unsafe_succeeds_witness :
  Import Sample.NewReader Sample.Read (Some Sample.importerOfList) "unsafe"
         Sample.worldAfterNewImporter
  = Done Sample.worldAfterNewImporter (types.Unsafe, None)
  /\ Import Sample.NewReader Sample.Read
            (Some (mkImporter ∅ (loaded Sample.importerOfList)
                              (fset Sample.importerOfList)))
            "unsafe" Sample.worldAfterNewImporter
     = Done Sample.worldAfterNewImporter (types.Unsafe, None).
Proof.
  apply (C9_Import_unsafe_succeeds
           Sample.loadDeps string Sample.NewReader Sample.Read
           3 Sample.conf ["./..."] Sample.world Sample.worldAfterNewImporter
           Sample.importerOfList ["example.com/m/a"; "example.com/m/b/sub"]).
  - exists (mkPackage "unsafe" true). split; reflexivity.
  - vm_compute. reflexivity.
Defined.

(* ================================================================== *)
(** * Further properties of the listing *)

(** ** The accumulated list *)

Lemma scan_prepend
    (descend : list string -> string -> string -> M (list string * option error))
    (base pat : string) (exts : gset string) (recursive : bool)
    (acc : list string) (fis : list DirEntry) :
  (forall a b s w, descend (acc ++ a) b s w = prepend acc (descend a b s w)) ->
  forall a flag w,
    forRange (scanEntry descend base pat exts recursive) fis (acc ++ a, flag) w
    = prepend acc
        (forRange (scanEntry descend base pat exts recursive) fis (a, flag) w).
Proof.
  intros Hd. induction fis as [|fi fis IH]; intros a flag w; [reflexivity|].
  cbn [forRange]. unfold bind, scanEntry.
  destruct (strings.HasPrefix (Name fi) "_"); [apply IH|].
  destruct (IsDir fi).
  - destruct recursive; [|apply IH].
    unfold bind. rewrite Hd.
    destruct (descend a _ _ w) as [w1 [r e]| |]; [apply IH | reflexivity..].
  - destruct flag; [destruct (bool_decide _)|]; apply IH.
Qed.

Lemma doListPkgs_prepend (fuel : nat) :
  forall acc a base pat exts recursive w,
    doListPkgs fuel (acc ++ a) base pat exts recursive w
    = prepend acc (doListPkgs fuel a base pat exts recursive w).
Proof.
  induction fuel as [|fuel IH]; intros; [reflexivity|].
  rewrite !doListPkgs_S.
  destruct (fs.readDir (w_root w) (w_cwd w) pat) as [fis [e|]]; [reflexivity|].
  rewrite scan_prepend by (intros; apply IH).
  destruct (forRange _ fis (a, true) _) as [w' [mid f]| |]; try reflexivity.
  simpl. destruct f; simpl; [reflexivity | now rewrite app_assoc].
Qed.

(** X1.  What [doListPkgs] returns is the list it was given followed by
    what it returns when given the empty list: the paths found do not
    depend on the paths accumulated before, and none of those is dropped
    or moved, also when the directory cannot be read. *)
Theorem X1_doListPkgs_appends_to_accumulator :
  forall fuel acc base pat exts recursive w,
    doListPkgs fuel acc base pat exts recursive w
    = prepend acc (doListPkgs fuel [] base pat exts recursive w).
Proof.
  intros. rewrite <- doListPkgs_prepend. now rewrite app_nil_r.
Qed.

Lemma listPkgs_prepend_ok (fuel : nat) (conf : option Config)
    (acc a : list string) (pat modRoot : string) (w w' : World)
    (r : list string) :
  listPkgs fuel conf (acc ++ a) pat modRoot w = Done w' (r, None)
  <-> exists r0,
        r = acc ++ r0
        /\ listPkgs fuel conf a pat modRoot w = Done w' (r0, None).
Proof.
  rewrite !listPkgs_run.
  destruct (isFsPattern _).
  - destruct (escapes _ _ _).
    + split; [discriminate | intros (r0 & _ & H); discriminate H].
    + destruct conf as [c|];
        [|split; [discriminate | intros (r0 & _ & H); discriminate H]].
      rewrite doListPkgs_prepend.
      destruct (doListPkgs fuel a _ _ _ _ _) as [w1 [r1 e1]| |]; simpl.
      * split.
        -- intros [= <- <- ->]. eauto.
        -- intros (r0 & -> & [= <- <- ->]). reflexivity.
      * split; [discriminate | intros (r0 & _ & H); discriminate H].
      * split; [discriminate | intros (r0 & _ & H); discriminate H].
  - split.
    + intros [= <- <-]. exists (a ++ [stripMulti pat]).
      now rewrite app_assoc.
    + intros (r0 & -> & [= <- <-]). now rewrite app_assoc.
Qed.

Lemma listLoop_prepend_ok (fuel : nat) (conf : option Config)
    (modRoot : string) (pattern : list string) (acc : list string) :
  forall a w w' r,
    listLoop fuel conf modRoot pattern (acc ++ a) w = Done w' (r, None)
    <-> exists r0,
          r = acc ++ r0
          /\ listLoop fuel conf modRoot pattern a w = Done w' (r0, None).
Proof.
  induction pattern as [|pat rest IH]; intros a w w' r; cbn [listLoop].
  - unfold ret. split.
    + intros [= <- <-]. eauto.
    + intros (r0 & -> & [= <- <-]). reflexivity.
  - unfold bind. split.
    + destruct (listPkgs fuel conf (acc ++ a) pat modRoot w)
        as [w1 [r1 [e1|]]| |] eqn:E; try discriminate.
      apply listPkgs_prepend_ok in E as (r0 & -> & E). rewrite E.
      apply IH.
    + intros (r0 & -> & H).
      destruct (listPkgs fuel conf a pat modRoot w)
        as [w1 [r1 [e1|]]| |] eqn:E; try discriminate.
      assert (E' : listPkgs fuel conf (acc ++ a) pat modRoot w
                   = Done w1 (acc ++ r1, None))
        by (apply listPkgs_prepend_ok; eauto).
      rewrite E'. apply IH. eauto.
Qed.

(** X2.  When [List] returns without error for the patterns [pre], it
    returns without error for [pre ++ post] exactly when the loop of
    [List] over [post], started with the empty list in the world [pre]
    left, does; the result is then the list for [pre] followed by the
    list for [post].  No path is dropped, moved or deduplicated. *)
Theorem X2_List_concatenates_the_patterns :
  forall fuel conf pre post w w1 acc w2 r,
    List fuel conf pre w = Done w1 (acc, None) ->
    (List fuel conf (pre ++ post) w = Done w2 (r, None)
     <-> exists new,
           r = acc ++ new
           /\ listLoop fuel (Some (confOf conf)) (modRootOf conf w) post [] w1
              = Done w2 (new, None)).
Proof.
  intros fuel conf pre post w w1 acc w2 r Hpre.
  rewrite (List_app _ _ _ _ _ _ _ Hpre).
  rewrite <- (app_nil_r acc) at 1. apply listLoop_prepend_ok.
Qed.

Lemma X2_List_concatenates_the_patterns_witness :
  List 3 Sample.conf (["fmt"; "./a"] ++ ["./b/..."; "fmt"]) Sample.world
  = Done (mkWorld Sample.tree (Some ["m"]) Sample.heap
            [EvGetwd; EvReadDir "./a"; EvGetwd; EvReadDir "./b";
             EvReadDir "./b/sub"])
         (["fmt"; "example.com/m/a"; "example.com/m/b/sub"; "fmt"], None)
  <-> exists new,
        ["fmt"; "example.com/m/a"; "example.com/m/b/sub"; "fmt"]
        = ["fmt"; "example.com/m/a"] ++ new
        /\ listLoop 3 (Some (confOf Sample.conf))
                    (modRootOf Sample.conf Sample.world) ["./b/..."; "fmt"] []
                    (mkWorld Sample.tree (Some ["m"]) Sample.heap
                       [EvGetwd; EvReadDir "./a"])
           = Done (mkWorld Sample.tree (Some ["m"]) Sample.heap
                     [EvGetwd; EvReadDir "./a"; EvGetwd; EvReadDir "./b";
                      EvReadDir "./b/sub"])
                  (new, None).
Proof.
  apply (X2_List_concatenates_the_patterns
           3 Sample.conf ["fmt"; "./a"] ["./b/..."; "fmt"] Sample.world).
  vm_compute. reflexivity.
Defined.

(** ** An empty set of extensions *)





(** ** The listing only looks names up *)

Lemma lookupsOnly_ret {A} (a : A) (w : World) : lookupsOnly w (ret a w).
Proof.
  exists []. destruct w; simpl. now rewrite app_nil_r.
Qed.

Lemma lookupsOnly_log (ev : Event) (w : World) {A} (a : A) :
  isLookup ev = true -> lookupsOnly w (Done (logEvent ev w) a).
Proof. intros H. exists [ev]. simpl. now rewrite H. Qed.

Lemma lookupsOnly_trans {A} (w w1 : World) (r : Res A) :
  lookupsOnly w (Done w1 tt) -> lookupsOnly w1 r -> lookupsOnly w r.
Proof.
  intros (e1 & -> & H1). destruct r as [w2 a| |]; simpl; auto.
  intros (e2 & -> & H2). exists (e1 ++ e2). simpl.
  rewrite app_assoc, forallb_app, H1, H2. auto.
Qed.

Lemma lookupsOnly_bind {A B} (m : M A) (k : A -> M B) (w : World) :
  lookupsOnly w (m w) ->
  (forall a w', lookupsOnly w' (k a w')) ->
  lookupsOnly w (bind m k w).
Proof.
  unfold bind. destruct (m w) as [w1 a| |]; simpl; try tauto.
  intros H Hk. eapply lookupsOnly_trans; [exact H | apply Hk].
Qed.

Lemma forRange_lookupsOnly {A S} (body : A -> S -> M S) (l : list A) :
  (forall x s w, lookupsOnly w (body x s w)) ->
  forall s w, lookupsOnly w (forRange body l s w).
Proof.
  intros Hb. induction l as [|x l IH]; intros s w; cbn [forRange].
  - apply lookupsOnly_ret.
  - apply lookupsOnly_bind; [apply Hb | intros; apply IH].
Qed.

Lemma doListPkgs_lookupsOnly (fuel : nat) :
  forall acc base pat exts recursive w,
    lookupsOnly w (doListPkgs fuel acc base pat exts recursive w).
Proof.
  induction fuel as [|fuel IH]; intros; [exact I|].
  cbn [doListPkgs]. apply lookupsOnly_bind.
  - unfold os.ReadDir. now apply lookupsOnly_log.
  - intros [fis [e|]] w1; [apply lookupsOnly_ret|].
    apply lookupsOnly_bind.
    + apply forRange_lookupsOnly. intros fi [a f] w0. unfold scanEntry.
      destruct (strings.HasPrefix (Name fi) "_"); [apply lookupsOnly_ret|].
      destruct (IsDir fi).
      * destruct recursive; [|apply lookupsOnly_ret].
        apply lookupsOnly_bind; [apply IH|].
        intros [a' e'] w2. apply lookupsOnly_ret.
      * destruct f; [destruct (bool_decide _)|]; apply lookupsOnly_ret.
    + intros [a f] w2. apply lookupsOnly_ret.
Qed.

Lemma Abs_lookupsOnly (p : string) (w : World) :
  lookupsOnly w (filepath.Abs p w).
Proof.
  rewrite Abs_run. unfold absWorld.
  destruct (filepath.IsAbs p); [apply lookupsOnly_ret|].
  now apply lookupsOnly_log.
Qed.

Lemma listLoop_lookupsOnly (fuel : nat) (c : Config) (modRoot : string)
    (pattern : list string) :
  forall acc w, lookupsOnly w (listLoop fuel (Some c) modRoot pattern acc w).
Proof.
  induction pattern as [|pat rest IH]; intros acc w; cbn [listLoop].
  - apply lookupsOnly_ret.
  - apply lookupsOnly_bind.
    + unfold listPkgs.
      destruct (strings.HasPrefix _ "." || strings.HasPrefix _ "/");
        [|apply lookupsOnly_ret].
      apply lookupsOnly_bind; [apply Abs_lookupsOnly|].
      intros [patAbs err1] w1.
      destruct (filepath.Rel modRoot patAbs) as [patRel err2].
      destruct (_ || _ || _); [apply lookupsOnly_ret|].
      apply lookupsOnly_bind; [apply lookupsOnly_ret|].
      intros c0 w2. apply doListPkgs_lookupsOnly.
    + intros [acc' [e|]] w1; [apply lookupsOnly_ret | apply IH].
Qed.

(** X4.  For every configuration and every list of patterns, [List] does
    not panic, and when it returns it has left the directory tree, the
    working directory and the heap as they were: the only system calls
    it makes are [Getwd] and [ReadDir]; it opens no file. *)
Theorem X4_List_only_looks_names_up :
  forall fuel conf pattern w, lookupsOnly w (List fuel conf pattern w).
Proof.
  intros fuel conf pattern w. unfold List.
  apply lookupsOnly_bind.
  - destruct conf; apply lookupsOnly_ret.
  - intros c w1. apply lookupsOnly_bind; [apply Abs_lookupsOnly|].
    intros [modRoot e] w2.
    replace (match conf with Some _ => conf | None => Some new_Config end)
      with (Some (confOf conf)) by now destruct conf.
    apply listLoop_lookupsOnly.
Qed.

(** ** The recursive listing, read off the tree *)

Lemma orderedNode_Dir (r : bool) (es : list (string * Node)) :
  orderedNode (Dir r es)
  = sortedNames (map fst es) && distinctNames (map fst es)
    && orderedEntries es.
Proof.
  simpl. f_equal. induction es as [|[name x] es IH]; simpl; [reflexivity|].
  now rewrite IH.
Qed.

Lemma listTree_Dir (exts : gset string) (base : string)
    (es : list (string * Node)) :
  listTree exts base (Dir true es)
  = listBelow exts base es
    ++ (if hasSourceFile exts (map fs.entryOf es) then [base] else []).
Proof.
  simpl. f_equal. induction es as [|[name x] es IH]; simpl; [reflexivity|].
  now rewrite IH.
Qed.

Lemma orderedEntries_In (es : list (string * Node)) (name : string) (x : Node) :
  orderedEntries es = true -> In (name, x) es ->
  validName name = true /\ orderedNode x = true.
Proof.
  unfold orderedEntries. rewrite forallb_forall. intros H Hin.
  specialize (H _ Hin). simpl in H. now apply andb_true_iff in H.
Qed.

(** Entries held in sorted order are returned as they are held. *)
Lemma sortEntries_sorted (es : list (string * Node)) :
  sortedNames (map fst es) = true ->
  fs.sortEntries (map fs.entryOf es) = map fs.entryOf es.
Proof.
  induction es as [|e es IH]; [reflexivity|].
  intros Hs. cbn [map fs.sortEntries fold_right].
  fold (fs.sortEntries (map fs.entryOf es)).
  destruct es as [|e' es]; [reflexivity|].
  cbn [map sortedNames] in Hs. apply andb_true_iff in Hs as [Hle Hs].
  rewrite (IH Hs). cbn [map fs.insertEntry]. unfold fs.entryOf at 1 2.
  cbn [Name]. now rewrite Hle.
Qed.

(** With distinct names, looking a name up gives the entry held under
    it. *)
Lemma distinct_assoc (es : list (string * Node)) (name : string) (x : Node) :
  distinctNames (map fst es) = true -> In (name, x) es ->
  fs.assoc name es = Some x.
Proof.
  induction es as [|[n y] es IH]; [intros _ []|].
  cbn [map distinctNames fst fs.assoc]. intros Hd Hin.
  apply andb_true_iff in Hd as [Hn Hd]. apply negb_true_iff in Hn.
  destruct Hin as [[= -> ->]|Hin].
  - now rewrite String.eqb_refl.
  - destruct (String.eqb_spec n name) as [->|Hne]; [|auto].
    exfalso. apply not_true_iff_false in Hn. apply Hn.
    apply existsb_exists. exists name. split; [|apply String.eqb_refl].
    apply in_map_iff. now exists (name, x).
Qed.

Lemma forRange_cons {A S} (body : A -> S -> M S) (x : A) (l : list A)
    (s : S) (w : World) :
  forRange body (x :: l) s w
  = match body x s w with
    | Done w' s' => forRange body l s' w'
    | Panic msg => Panic msg
    | OutOfFuel => OutOfFuel
    end.
Proof. reflexivity. Qed.

(** The loop body of [doListPkgs] by cases of the entry. *)
Lemma scanEntry_skip
    (descend : list string -> string -> string -> M (list string * option error))
    (base pat : string) (exts : gset string) (recursive : bool)
    (fi : DirEntry) (st : list string * bool) (w : World) :
  strings.HasPrefix (Name fi) "_" = true ->
  scanEntry descend base pat exts recursive fi st w = Done w st.
Proof. intros H. destruct st. unfold scanEntry. now rewrite H. Qed.

Lemma scanEntry_file
    (descend : list string -> string -> string -> M (list string * option error))
    (base pat : string) (exts : gset string) (recursive : bool)
    (fi : DirEntry) (a : list string) (flag : bool) (w : World) :
  strings.HasPrefix (Name fi) "_" = false -> IsDir fi = false ->
  scanEntry descend base pat exts recursive fi (a, flag) w
  = Done w (a, flag && negb (bool_decide (path.Ext (Name fi) ∈ exts))).
Proof.
  intros Hu Hd. unfold scanEntry. rewrite Hu, Hd.
  destruct flag; [destruct (bool_decide _)|]; reflexivity.
Qed.

Lemma scanEntry_dir
    (descend : list string -> string -> string -> M (list string * option error))
    (base pat : string) (exts : gset string)
    (fi : DirEntry) (a : list string) (flag : bool) (w : World) :
  strings.HasPrefix (Name fi) "_" = false -> IsDir fi = true ->
  scanEntry descend base pat exts true fi (a, flag) w
  = match descend a (base +:+ "/" +:+ Name fi) (pat +:+ "/" +:+ Name fi) w with
    | Done w' (r, _) => Done w' (r, flag)
    | Panic msg => Panic msg
    | OutOfFuel => OutOfFuel
    end.
Proof.
  intros Hu Hd. unfold scanEntry. rewrite Hu, Hd. unfold bind.
  now destruct (descend a _ _ w) as [w' [r e]| |].
Qed.

(** The scan of a directory on an ordered tree returns what [listTree]
    reads off the node the path resolves to. *)
Lemma doListPkgs_listTree (fuel : nat) :
  forall n acc base pat exts w,
    height n <= fuel -> orderedNode n = true ->
    fs.resolve (w_root w) (w_cwd w) pat = inr n ->
    exists w',
      doListPkgs (S fuel) acc base pat exts true w
      = Done w' (acc ++ listTree exts base n,
                 snd (fs.readDir (w_root w) (w_cwd w) pat))
      /\ extends w w'.
Proof.
  induction fuel as [|fuel IH]; intros n acc base pat exts w Hh Hord Hres;
    rewrite doListPkgs_S; unfold fs.readDir; rewrite Hres;
    destruct n as [d|[|] es];
    try (exists (logEvent (EvReadDir pat) w); cbn [listTree];
         rewrite app_nil_r; split; [reflexivity | apply extends_log]).
  - rewrite height_Dir in Hh. lia.
  - rewrite height_Dir in Hh. rewrite orderedNode_Dir in Hord.
    apply andb_true_iff in Hord as [Hord Hents].
    apply andb_true_iff in Hord as [Hsorted Hdistinct].
    rewrite (sortEntries_sorted _ Hsorted), listTree_Dir.
    set (w1 := logEvent (EvReadDir pat) w).
    assert (Hloop : forall es',
               (forall name x, In (name, x) es' -> In (name, x) es) ->
               forall a flag w0, extends w w0 ->
               exists w2,
                 forRange
                   (scanEntry (fun a b s => doListPkgs (S fuel) a b s exts true)
                              base pat exts true)
                   (map fs.entryOf es') (a, flag) w0
                 = Done w2 (a ++ listBelow exts base es',
                            flag && negb (hasSourceFile exts (map fs.entryOf es')))
                 /\ extends w0 w2).
    { induction es' as [|[name x] es' IHes]; intros Hsub a flag w0 E0.
      - exists w0. simpl. unfold ret. rewrite app_nil_r, andb_true_r.
        auto with world.
      - assert (Hin : In (name, x) es) by (apply Hsub; now left).
        assert (Hsub' : forall name x, In (name, x) es' -> In (name, x) es)
          by (intros; apply Hsub; now right).
        destruct (orderedEntries_In _ _ _ Hents Hin) as [Hv Hox].
        cbn [map]. rewrite forRange_cons.
        cbn [hasSourceFile existsb]. fold (hasSourceFile exts (map fs.entryOf es')).
        unfold listBelow. cbn [flat_map fst snd]. fold (listBelow exts base es').
        unfold isSourceFile.
        destruct (strings.HasPrefix name "_") eqn:Hu.
        + rewrite scanEntry_skip by exact Hu.
          destruct (IHes Hsub' a flag w0 E0) as (w2 & H2 & E2).
          exists w2. rewrite H2. split; [|assumption].
          cbn [fs.entryOf Name fst]. rewrite Hu.
          now rewrite andb_false_r.
        + destruct x as [d|r' es''].
          * rewrite scanEntry_file by (try exact Hu; reflexivity).
            destruct (IHes Hsub' a
                        (flag && negb (bool_decide (path.Ext name ∈ exts))) w0 E0)
              as (w2 & H2 & E2).
            exists w2. cbn [fs.entryOf Name IsDir fst snd] in *.
            rewrite H2. split; [|assumption].
            rewrite Hu. cbn [listTree app negb andb].
            now rewrite negb_orb, andb_assoc.
          * rewrite scanEntry_dir by (try exact Hu; reflexivity).
            cbn [fs.entryOf Name IsDir fst snd].
            destruct (IH (Dir r' es'') a (base +:+ "/" +:+ name)
                         (pat +:+ "/" +:+ name) exts w0)
              as (w2 & H2 & E2).
            -- pose proof (heightEntries_In _ _ _ Hin). lia.
            -- assumption.
            -- rewrite (extends_root _ _ E0), (extends_cwd _ _ E0).
               rewrite (resolve_child _ _ _ _ _ _ Hv Hres).
               now rewrite (distinct_assoc _ _ _ Hdistinct Hin).
            -- rewrite H2.
               destruct (IHes Hsub' (a ++ listTree exts (base +:+ "/" +:+ name)
                                           (Dir r' es'')) flag w2)
                 as (w3 & H3 & E3);
                 [eapply extends_trans; eassumption|].
               exists w3. rewrite H3. split.
               ++ now rewrite app_assoc.
               ++ eapply extends_trans; eassumption. }
    destruct (Hloop es (fun _ _ H => H) acc true w1 (extends_log _ _))
      as (w2 & H2 & E2).
    exists w2. rewrite H2. split.
    + simpl. destruct (hasSourceFile exts (map fs.entryOf es)); simpl;
        [now rewrite app_assoc | now rewrite app_nil_r].
    + eapply extends_trans; [apply extends_log | exact E2].
Qed.

(** X5.  On a tree whose directories hold valid, distinct names in
    sorted order, a recursive scan with fuel from the height of the
    scanned directory on returns the list it was given followed by the
    import paths [listTree] reads off that directory: every directory
    below it that can be read, is not below a name starting with [_] or
    a directory that cannot be read, and holds a source file; entries in
    name order, a directory after the directories below it. *)
Theorem X5_recursive_scan_lists_the_tree :
  forall fuel w acc base pat exts es,
    orderedNode (Dir true es) = true ->
    height (Dir true es) <= fuel ->
    fs.resolve (w_root w) (w_cwd w) pat = inr (Dir true es) ->
    exists w',
      doListPkgs (S fuel) acc base pat exts true w
      = Done w' (acc ++ listTree exts base (Dir true es), None)
      /\ extends w w'.
Proof.
  intros fuel w acc base pat exts es Hord Hh Hres.
  destruct (doListPkgs_listTree fuel (Dir true es) acc base pat exts w
              Hh Hord Hres) as (w' & H & E).
  exists w'. split; [|assumption].
  rewrite H. unfold fs.readDir. now rewrite Hres.
Qed.

Lemma X5_recursive_scan_lists_the_tree_witness :
  exists w',
    doListPkgs 4 ["fmt"] "example.com/m" "/m" {[ ".go" ]} true Sample.world
    = Done w' (["fmt"]
               ++ listTree {[ ".go" ]} "example.com/m"
                    (Dir true
                       [("a", Dir true [("x.go", File "package a")]);
                        ("b", Dir true
                           [("sub", Dir true [("y.go", File "package sub")])])]),
               None)
    /\ extends Sample.world w'.
Proof.
  apply (X5_recursive_scan_lists_the_tree
           3 Sample.world ["fmt"] "example.com/m" "/m" {[ ".go" ]}).
  - reflexivity.
  - vm_compute. lia.
  - reflexivity.
Defined.

(* ================================================================== *)
(** * Further properties of the importer *)

Section ImporterFurther.

Variable loadDeps :
string -> list string -> Node -> Node * (gmap string string * option error).
Variable Reader : Type.
Variable NewReader : os.File -> option Reader * option error.
Variable Read :
Reader -> ptr -> loc -> string -> Heap -> Heap * (ptr * option error).

(** ** Opening and closing the artifact *)

(** X6.  When [loadPkgExport] returns, the directory tree and the
  working directory are as before, and either the artifact could not
  be opened: the result is nil with the [PathError] of the open, the
  heap is untouched and the only system call is the open; or it was
  opened and is closed again, exactly once, whether the reader failed
  (nil result, the reader's error, heap untouched) or [Read] ran
  (its result, on the heap it left). *)
Theorem X6_loadPkgExport_closes_what_it_opens :
forall p expfile pkgPath w w' r err,
  loadPkgExport NewReader Read (Some p) expfile pkgPath w = Done w' (r, err) ->
  w_root w' = w_root w /\ w_cwd w' = w_cwd w
  /\ ((exists e,
         fs.resolve (w_root w) (w_cwd w) expfile = inl e
         /\ r = None /\ err = Some (PathError "open" expfile e)
         /\ w_heap w' = w_heap w
         /\ w_log w' = w_log w ++ [EvOpen expfile])
      \/ (exists n,
            fs.resolve (w_root w) (w_cwd w) expfile = inr n
            /\ w_log w' = w_log w ++ [EvOpen expfile; EvClose expfile]
            /\ match NewReader (os.mkFile expfile n) with
               | (_, Some e) =>
                   r = None /\ err = Some e /\ w_heap w' = w_heap w
               | (Some rd, None) =>
                   Read rd (fset p) (loaded p) pkgPath (w_heap w)
                   = (w_heap w', (r, err))
               | (None, None) => False
               end)).
Proof.
intros p expfile pkgPath w w' r err.
unfold loadPkgExport, bind, os.Open. cbn [logEvent w_root w_cwd].
destruct (fs.resolve (w_root w) (w_cwd w) expfile) as [e|n].
- unfold ret. intros [= <- <- <-]. cbn. repeat split. left. eauto 10.
- destruct (NewReader (os.mkFile expfile n)) as [[rd|] [e|]] eqn:Hnr;
    unfold ret, panic, os.Close; try discriminate.
  + intros [= <- <- <-]. cbn. repeat split. right. exists n.
    rewrite Hnr, <- app_assoc. auto.
  + unfold deref, ret, run_Read. cbn [w_heap logEvent].
    destruct (Read rd (fset p) (loaded p) pkgPath (w_heap w))
      as [h' [r' e']] eqn:Hrd.
    intros [= <- <- <-]. cbn. repeat split. right. exists n.
    rewrite Hnr, <- app_assoc. auto.
  + intros [= <- <- <-]. cbn. repeat split. right. exists n.
    rewrite Hnr, <- app_assoc. auto.
Qed.

(** ** A nil entry in the cache *)

(** X7.  When the cache holds a nil pointer under the path, [Import]
  panics on the call of [Complete]: it neither returns the "not found"
  error nor goes to the artifact. *)
Theorem X7_Import_panics_on_nil_cache_entry :
forall p pkgPath w,
  mapAt (w_heap w) (loaded p) !! pkgPath = Some None ->
  Import NewReader Read (Some p) pkgPath w
  = Panic "invalid memory address or nil pointer dereference".
Proof.
intros p pkgPath w H.
unfold Import, deref, bind, ret, mapLookup, types.Complete.
now rewrite H.
Qed.

(** ** [NewImporter] *)

Lemma List_conf (fuel : nat) (conf : option Config) (pattern : list string) :
List fuel (match conf with Some _ => conf | None => Some new_Config end)
     pattern
= List fuel conf pattern.
Proof. now destruct conf. Qed.

(** X8.  When [NewImporter] returns an error it returns no importer, and
  the heap, with the map the caller passed as [Loaded], is untouched:
  either [List] failed, and [NewImporter] returns what [List] returns
  without running [loadDeps]; or [List] returned the paths and
  [loadDeps], given the scratch directory [.gop/_dummy] under the
  module root and those paths, failed. *)
Theorem X8_NewImporter_error_leaves_the_cache :
forall fuel conf pattern w w' p pkgPaths e,
  NewImporter loadDeps fuel conf pattern w = Done w' (p, pkgPaths, Some e) ->
  p = None /\ w_heap w' = w_heap w /\ w_cwd w' = w_cwd w
  /\ (List fuel conf pattern w = Done w' (pkgPaths, Some e)
      \/ exists w1 arts,
           List fuel conf pattern w = Done w1 (pkgPaths, None)
           /\ loadDeps (filepath.Join (ModRoot (confOf conf)) ".gop/_dummy")
                       pkgPaths (w_root w1)
              = (w_root w', (arts, Some e))
           /\ w_log w' = w_log w1).
Proof.
intros fuel conf pattern w w' p pkgPaths e.
unfold NewImporter, bind. rewrite List_conf.
destruct (List fuel conf pattern w) as [w1 [paths [e1|]]| |] eqn:HL;
  try discriminate.
- apply List_extends in HL as E. unfold ret. intros [= <- <- <- <-].
  rewrite (extends_heap _ _ E), (extends_cwd _ _ E). auto.
- apply List_extends in HL as E.
  replace (match conf with Some _ => conf | None => Some new_Config end)
    with (Some (confOf conf)) by now destruct conf.
  unfold getTempDir, deref, bind, ret, run_loadDeps.
  destruct (loadDeps _ paths (w_root w1)) as [root' [arts [e2|]]] eqn:HD.
  + intros [= <- <- <- <-]. cbn.
    rewrite (extends_heap _ _ E), (extends_cwd _ _ E).
    repeat split. right. exists w1, arts. auto.
  + destruct (Fset (confOf conf)), (Loaded (confOf conf)); discriminate.
Qed.

(** X9.  An importer [NewImporter] returns is built from what [List] and
  [loadDeps] returned: the paths are those [List] returned without
  error, and the artifact map is the one [loadDeps] returned, without
  error, for the scratch directory [.gop/_dummy] under the module root
  and those paths, on the tree [List] left. *)
Theorem X9_NewImporter_is_List_then_loadDeps :
forall fuel conf pattern w w' p pkgPaths,
  NewImporter loadDeps fuel conf pattern w
  = Done w' (Some p, pkgPaths, None) ->
  exists w1,
    List fuel conf pattern w = Done w1 (pkgPaths, None)
    /\ loadDeps (filepath.Join (ModRoot (confOf conf)) ".gop/_dummy")
                pkgPaths (w_root w1)
       = (w_root w', (pkgs p, None))
    /\ w_cwd w' = w_cwd w /\ w_log w' = w_log w1.
Proof.
intros fuel conf pattern w w' p pkgPaths.
unfold NewImporter, bind. rewrite List_conf.
destruct (List fuel conf pattern w) as [w1 [paths [e1|]]| |] eqn:HL;
  try discriminate.
apply List_extends in HL as E.
replace (match conf with Some _ => conf | None => Some new_Config end)
  with (Some (confOf conf)) by now destruct conf.
unfold getTempDir, deref, bind, ret, run_loadDeps.
destruct (loadDeps _ paths (w_root w1)) as [root' [arts [e2|]]] eqn:HD;
  try discriminate.
unfold token.NewFileSet, makeMap, mapStore.
destruct (Fset (confOf conf)), (Loaded (confOf conf));
  intros [= <- <- <-]; cbn; exists w1;
  rewrite (extends_cwd _ _ E); auto.
Qed.

(** X10.  The cache of an importer [NewImporter] returns is the map the
  caller passed as [Loaded], the same map object, with its entries
  kept and [unsafe] set to [types.Unsafe]; with a nil [Loaded] it is a
  new map that holds [unsafe] only.  A [Fset] the caller passed is the
  one the importer uses.  No other map and no package object is
  changed. *)
Theorem X10_NewImporter_seeds_the_callers_cache :
forall fuel conf pattern w w' p pkgPaths,
  NewImporter loadDeps fuel conf pattern w
  = Done w' (Some p, pkgPaths, None) ->
  mapAt (w_heap w') (loaded p)
  = <[ "unsafe" := types.Unsafe ]>
      (match Loaded (confOf conf) with
       | Some m => mapAt (w_heap w) m
       | None => ∅
       end)
  /\ (forall m, Loaded (confOf conf) = Some m -> loaded p = m)
  /\ (forall f, Fset (confOf conf) = Some f -> fset p = Some f)
  /\ (forall m', m' <> loaded p ->
        h_maps (w_heap w') !! m' = h_maps (w_heap w) !! m')
  /\ h_pkgs (w_heap w') = h_pkgs (w_heap w).
Proof.
intros fuel conf pattern w w' p pkgPaths.
unfold NewImporter, bind. rewrite List_conf.
destruct (List fuel conf pattern w) as [w1 [paths [e1|]]| |] eqn:HL;
  try discriminate.
apply List_extends in HL. apply extends_heap in HL.
replace (match conf with Some _ => conf | None => Some new_Config end)
  with (Some (confOf conf)) by now destruct conf.
unfold getTempDir, deref, bind, ret, run_loadDeps.
destruct (loadDeps _ paths (w_root w1)) as [root' [arts [e2|]]];
  try discriminate.
unfold token.NewFileSet, makeMap, mapStore, mapAt.
destruct (Fset (confOf conf)) as [f|], (Loaded (confOf conf)) as [m|];
  intros [= <- <- <-]; cbn; rewrite HL;
  rewrite ?lookup_insert_eq; cbn; rewrite ?lookup_insert_eq; cbn;
  (split; [reflexivity|]);
  (split; [intros ? [= ->]; reflexivity || intros ? [=]|]);
  (split; [intros ? [= ->]; reflexivity || intros ? [=]|]);
  (split; [|reflexivity]);
  intros m' Hne; now rewrite !lookup_insert_ne by congruence.
Qed.

(** ** [Load] *)

Lemma loadLoop_length (p : option Importer) (pkgPaths : list string) :
forall w w' ps err,
  loadLoop NewReader Read p pkgPaths w = Done w' (ps, err) ->
  length ps = length pkgPaths.
Proof.
induction pkgPaths as [|path rest IH]; intros w w' ps err; cbn [loadLoop].
- unfold ret. now intros [= _ <- _].
- unfold bind.
  destruct (Import NewReader Read p path w) as [w1 [r [e|]]| |];
    try discriminate.
  + unfold ret. intros [= _ <- _]. cbn. now rewrite length_map.
  + destruct (loadLoop NewReader Read p rest w1) as [w2 [ps' e']| |] eqn:E;
      try discriminate.
    unfold ret. intros [= _ <- _]. cbn. f_equal. eapply IH; eassumption.
Qed.

(** X11.  When [Load] returns, either the importer was built and the
  result has one position for each path [NewImporter] returned, also
  when an import failed; or building the importer failed and [Load]
  returns no position at all with that error. *)
Theorem X11_Load_one_position_per_path :
forall fuel conf pattern w w' ps err,
  Load loadDeps NewReader Read fuel conf pattern w = Done w' (ps, err) ->
  (exists w1 p pkgPaths,
     NewImporter loadDeps fuel conf pattern w = Done w1 (p, pkgPaths, None)
     /\ length ps = length pkgPaths)
  \/ (exists p pkgPaths e,
        NewImporter loadDeps fuel conf pattern w
        = Done w' (p, pkgPaths, Some e)
        /\ ps = [] /\ err = Some e).
Proof.
intros fuel conf pattern w w' ps err. unfold Load, bind.
destruct (NewImporter loadDeps fuel conf pattern w)
  as [w1 [[p paths] [e|]]| |]; try discriminate.
- unfold ret. intros [= <- <- <-]. right. eauto 10.
- intros H. left. exists w1, p, paths. split; [reflexivity|].
  eapply loadLoop_length; eassumption.
Qed.

(** X12.  The loop of [Load] stops at the first import that fails: when
  the paths before it were imported without error, the result holds
  their packages, then what the failing import returned, then nil for
  every path after it, with the error and the world of the failing
  import; no path after it is imported. *)
Theorem X12_Load_stops_at_the_first_error :
forall p pre pkgPath post w w1 w2 ps r e,
  loadLoop NewReader Read p pre w = Done w1 (ps, None) ->
  Import NewReader Read p pkgPath w1 = Done w2 (r, Some e) ->
  loadLoop NewReader Read p (pre ++ pkgPath :: post) w
  = Done w2 (ps ++ r :: repeat None (length post), Some e).
Proof.
intros p pre. induction pre as [|path pre IH];
  intros pkgPath post w w1 w2 ps r e; cbn [loadLoop app].
- unfold ret. intros [= <- <-] HI. unfold bind. rewrite HI. cbn.
  do 3 f_equal. induction post as [|x post IHp]; cbn; [reflexivity|].
  now rewrite IHp.
- unfold bind.
  destruct (Import NewReader Read p path w) as [w0 [r0 [e0|]]| |];
    try discriminate.
  destruct (loadLoop NewReader Read p pre w0) as [w3 [ps' e']| |] eqn:E;
    try discriminate.
  unfold ret. intros [= <- <- ->] HI.
  now rewrite (IH _ post _ _ _ _ _ _ E HI).
Qed.

(** X13.  When every path has a complete package in the cache, the loop
  of [Load] returns these packages in the order of the paths, without
  error and in the same world: no artifact is opened. *)
Theorem X13_Load_of_cached_packages :
forall i pkgPaths w,
  (forall pkgPath, In pkgPath pkgPaths ->
     exists r, cached (w_heap w) (loaded i) pkgPath r) ->
  exists ps,
    loadLoop NewReader Read (Some i) pkgPaths w = Done w (ps, None)
    /\ Forall2 (fun pkgPath r => cached (w_heap w) (loaded i) pkgPath r)
               pkgPaths ps.
Proof.
intros i pkgPaths w. induction pkgPaths as [|path rest IH]; intros Hc.
- exists []. split; [reflexivity | constructor].
- destruct (Hc path) as [r Hr]; [now left|].
  destruct IH as (ps & Hps & Hall); [intros; apply Hc; now right|].
  exists (r :: ps). cbn [loadLoop]. unfold bind.
  rewrite (Import_hit _ NewReader Read i path r w Hr), Hps.
  split; [reflexivity | now constructor].
Qed.

End ImporterFurther.

Lemma X6_loadPkgExport_closes_what_it_opens_witness :
  w_root Sample.worldAfterImport = w_root Sample.world
  /\ w_cwd Sample.worldAfterImport = w_cwd Sample.world
  /\ ((exists e,
         fs.resolve (w_root Sample.world) (w_cwd Sample.world) "/m/a/x.go"
         = inl e
         /\ Some 2%positive = None
         /\ None = Some (PathError "open" "/m/a/x.go" e)
         /\ w_heap Sample.worldAfterImport = w_heap Sample.world
         /\ w_log Sample.worldAfterImport
            = w_log Sample.world ++ [EvOpen "/m/a/x.go"])
      \/ (exists n,
            fs.resolve (w_root Sample.world) (w_cwd Sample.world) "/m/a/x.go"
            = inr n
            /\ w_log Sample.worldAfterImport
               = w_log Sample.world ++ [EvOpen "/m/a/x.go"; EvClose "/m/a/x.go"]
            /\ match Sample.NewReader (os.mkFile "/m/a/x.go" n) with
               | (_, Some e) =>
                   Some 2%positive = None /\ None = Some e
                   /\ w_heap Sample.worldAfterImport = w_heap Sample.world
               | (Some rd, None) =>
                   Sample.Read rd (fset Sample.importer)
                               (loaded Sample.importer) "example.com/m/a"
                               (w_heap Sample.world)
                   = (w_heap Sample.worldAfterImport, (Some 2%positive, None))
               | (None, None) => False
               end)).
Proof.
  apply (X6_loadPkgExport_closes_what_it_opens
           string Sample.NewReader Sample.Read Sample.importer
           "/m/a/x.go" "example.com/m/a" Sample.world Sample.worldAfterImport
           (Some 2%positive) None).
  vm_compute. reflexivity.
Defined.

Lemma X7_Import_panics_on_nil_cache_entry_witness :
  Import Sample.NewReader Sample.Read (Some Sample.importer) "example.com/m/a"
         Faulty.world
  = Panic "invalid memory address or nil pointer dereference".
Proof.
  apply (X7_Import_panics_on_nil_cache_entry
           string Sample.NewReader Sample.Read Sample.importer
           "example.com/m/a" Faulty.world).
  reflexivity.
Defined.

Lemma X8_NewImporter_error_leaves_the_cache_witness :
  @None Importer = None
  /\ w_heap (logEvent EvGetwd Sample.world) = w_heap Sample.world
  /\ w_cwd (logEvent EvGetwd Sample.world) = w_cwd Sample.world
  /\ (List 0 Sample.conf ["fmt"; "../x"] Sample.world
      = Done (logEvent EvGetwd Sample.world)
             ([], Some (fmt.Errorf_outside "../x"))
      \/ exists w1 arts,
           List 0 Sample.conf ["fmt"; "../x"] Sample.world = Done w1 ([], None)
           /\ Sample.loadDeps
                (filepath.Join (ModRoot (confOf Sample.conf)) ".gop/_dummy")
                [] (w_root w1)
              = (w_root (logEvent EvGetwd Sample.world),
                 (arts, Some (fmt.Errorf_outside "../x")))
           /\ w_log (logEvent EvGetwd Sample.world) = w_log w1).
Proof.
  apply (X8_NewImporter_error_leaves_the_cache
           Sample.loadDeps 0 Sample.conf ["fmt"; "../x"] Sample.world
           (logEvent EvGetwd Sample.world) None []
           (fmt.Errorf_outside "../x")).
  vm_compute. reflexivity.
Defined.

Lemma X9_NewImporter_is_List_then_loadDeps_witness :
  exists w1,
    List 3 Sample.conf ["./..."] Sample.world
    = Done w1 (["example.com/m/a"; "example.com/m/b/sub"], None)
    /\ Sample.loadDeps
         (filepath.Join (ModRoot (confOf Sample.conf)) ".gop/_dummy")
         ["example.com/m/a"; "example.com/m/b/sub"] (w_root w1)
       = (w_root Sample.worldAfterNewImporter,
          (pkgs Sample.importerOfList, None))
    /\ w_cwd Sample.worldAfterNewImporter = w_cwd Sample.world
    /\ w_log Sample.worldAfterNewImporter = w_log w1.
Proof.
  apply (X9_NewImporter_is_List_then_loadDeps
           Sample.loadDeps 3 Sample.conf ["./..."] Sample.world
           Sample.worldAfterNewImporter Sample.importerOfList
           ["example.com/m/a"; "example.com/m/b/sub"]).
  vm_compute. reflexivity.
Defined.

Lemma X10_NewImporter_seeds_the_callers_cache_witness :
  mapAt (w_heap Sample.worldAfterNewImporter) (loaded Sample.importerOfList)
  = <[ "unsafe" := types.Unsafe ]>
      (match Loaded (confOf Sample.conf) with
       | Some m => mapAt (w_heap Sample.world) m
       | None => ∅
       end)
  /\ (forall m, Loaded (confOf Sample.conf) = Some m ->
        loaded Sample.importerOfList = m)
  /\ (forall f, Fset (confOf Sample.conf) = Some f ->
        fset Sample.importerOfList = Some f)
  /\ (forall m', m' <> loaded Sample.importerOfList ->
        h_maps (w_heap Sample.worldAfterNewImporter) !! m'
        = h_maps (w_heap Sample.world) !! m')
  /\ h_pkgs (w_heap Sample.worldAfterNewImporter)
     = h_pkgs (w_heap Sample.world).
Proof.
  apply (X10_NewImporter_seeds_the_callers_cache
           Sample.loadDeps 3 Sample.conf ["./..."] Sample.world
           Sample.worldAfterNewImporter Sample.importerOfList
           ["example.com/m/a"; "example.com/m/b/sub"]).
  vm_compute. reflexivity.
Defined.

Lemma X11_Load_one_position_per_path_witness :
  exists w',
    (exists w1 p pkgPaths,
       NewImporter Sample.loadDeps 3 Sample.conf ["./a"; "nowhere"] Sample.world
       = Done w1 (p, pkgPaths, None)
       /\ length [Some 4%positive; None] = length pkgPaths)
    \/ (exists p pkgPaths e,
          NewImporter Sample.loadDeps 3 Sample.conf ["./a"; "nowhere"]
                      Sample.world
          = Done w' (p, pkgPaths, Some e)
          /\ [Some 4%positive; None] = [] /\ Some syscall.ENOENT = Some e).
Proof.
  eexists.
  eapply (X11_Load_one_position_per_path
            Sample.loadDeps string Sample.NewReader Sample.Read
            3 Sample.conf ["./a"; "nowhere"] Sample.world).
  vm_compute. reflexivity.
Defined.

Lemma X12_Load_stops_at_the_first_error_witness :
  loadLoop Sample.NewReader Sample.Read (Some Sample.importer)
           (["example.com/m/a"] ++ "example.com/m/b" :: ["fmt"; "os"])
           Sample.world
  = Done Sample.worldAfterImport
         ([Some 2%positive] ++ None :: repeat None (length ["fmt"; "os"]),
          Some syscall.ENOENT).
Proof.
  apply (X12_Load_stops_at_the_first_error
           string Sample.NewReader Sample.Read (Some Sample.importer)
           ["example.com/m/a"] "example.com/m/b" ["fmt"; "os"]
           Sample.world Sample.worldAfterImport);
    vm_compute; reflexivity.
Defined.

Lemma X13_Load_of_cached_packages_witness :
  exists ps,
    loadLoop Sample.NewReader Sample.Read (Some Sample.importerOfList)
             ["unsafe"; "unsafe"] Sample.worldAfterNewImporter
    = Done Sample.worldAfterNewImporter (ps, None)
    /\ Forall2
         (fun pkgPath r =>
            cached (w_heap Sample.worldAfterNewImporter)
                   (loaded Sample.importerOfList) pkgPath r)
         ["unsafe"; "unsafe"] ps.
Proof.
  apply (X13_Load_of_cached_packages
           string Sample.NewReader Sample.Read Sample.importerOfList
           ["unsafe"; "unsafe"] Sample.worldAfterNewImporter).
  intros pkgPath [<-|[<-|[]]]; exists types.Unsafe;
    (split; [reflexivity|]);
    exists 1%positive, (mkPackage "unsafe" true); repeat split.
Defined.

(** ** A recursive pattern given to [List] *)

Lemma substring_app_l (a b : string) :
  String.substring 0 (String.length a) (a +:+ b) = a.
Proof. induction a as [|c a IH]; simpl; [now destruct b | now rewrite IH]. Qed.

Lemma substring_app_r (a b : string) :
  String.substring (String.length a) (String.length b) (a +:+ b) = b.
Proof. induction a as [|c a IH]; simpl; [apply substring_full | exact IH]. Qed.

Lemma HasSuffix_app (a b : string) : strings.HasSuffix (a +:+ b) b = true.
Proof.
  unfold strings.HasSuffix, strings.slice. rewrite length_app_str.
  apply andb_true_iff. split; [apply Nat.leb_le; lia|].
  replace (String.length a + String.length b - String.length b)
    with (String.length a) by lia.
  replace (String.length a + String.length b - String.length a)
    with (String.length b) by lia.
  rewrite substring_app_r. apply String.eqb_refl.
Qed.

Lemma stripMulti_app (dir : string) :
  dir <> "" -> stripMulti (dir +:+ multi) = dir.
Proof.
  intros Hne. unfold stripMulti. rewrite HasSuffix_app.
  unfold strings.slice. rewrite length_app_str, Nat.sub_0_r.
  replace (String.length dir + String.length multi - String.length multi)
    with (String.length dir) by lia.
  rewrite substring_app_l. now destruct (String.eqb_spec dir "").
Qed.

(** X14.  For a directory inside the module that can be read, on a tree
    whose directories hold valid, distinct names in sorted order, [List]
    with the one pattern [dir/...] returns, without error, the import
    paths [listTree] reads off the directory, based at the module path
    joined with the directory's path relative to the module root. *)
Theorem X14_List_of_a_recursive_pattern :
  forall fuel conf dir w es,
    dir <> "" ->
    isFsPattern dir = true ->
    escapes (w_cwd w) (modRootOf conf w) dir = false ->
    fs.resolve (w_root w) (w_cwd w) dir = inr (Dir true es) ->
    orderedNode (Dir true es) = true ->
    height (Dir true es) <= fuel ->
    exists w',
      List (S fuel) conf [dir +:+ multi] w
      = Done w' (listTree (extsOf (confOf conf))
                          (path.Join (ModPath (confOf conf))
                                     (relOf (w_cwd w) (modRootOf conf w) dir))
                          (Dir true es),
                 None)
      /\ extends w w'.
Proof.
  intros fuel conf dir w es Hne Hfs Hesc Hres Hord Hh.
  rewrite List_unfold, listLoop_single, listPkgs_run.
  rewrite (stripMulti_app _ Hne), Hfs, HasSuffix_app, absWorld_cwd, Hesc.
  set (w0 := absWorld dir (absWorld (ModRoot (confOf conf)) w)).
  assert (E0 : extends w w0)
    by (eapply extends_trans; apply absWorld_extends).
  destruct (doListPkgs_listTree fuel (Dir true es) []
              (path.Join (ModPath (confOf conf))
                         (relOf (w_cwd w) (modRootOf conf w) dir))
              dir (extsOf (confOf conf)) w0 Hh Hord)
    as (w' & H & E).
  - now rewrite (extends_root _ _ E0), (extends_cwd _ _ E0).
  - exists w'. split; [|eapply extends_trans; eassumption].
    rewrite H. unfold fs.readDir.
    now rewrite (extends_root _ _ E0), (extends_cwd _ _ E0), Hres.
Qed.

Lemma X14_List_of_a_recursive_pattern_witness :
  exists w',
    List 4 Sample.conf ["." +:+ multi] Sample.world
    = Done w' (listTree (extsOf (confOf Sample.conf))
                 (path.Join (ModPath (confOf Sample.conf))
                    (relOf (w_cwd Sample.world)
                           (modRootOf Sample.conf Sample.world) "."))
                 (Dir true
                    [("a", Dir true [("x.go", File "package a")]);
                     ("b", Dir true
                        [("sub", Dir true [("y.go", File "package sub")])])]),
               None)
    /\ extends Sample.world w'.
Proof.
  apply (X14_List_of_a_recursive_pattern 3 Sample.conf "." Sample.world).
  - discriminate.
  - reflexivity.
  - reflexivity.
  - reflexivity.
  - reflexivity.
  - vm_compute. lia.
Defined.
